(** * Retrieval-augmented generation core of the homework scripts

    A shallow embedding of the chunker, the embedding batcher, the knowledge
    store and the retriever of [hw6_asingh101.py] and [asingh101_hw7.py],
    with the properties of their behaviour.

    Conventions.
    - A Python [str] is the list of its code points, a Python [int] is a [Z],
      a Python [list] is a [list].
    - A call that can raise returns a [result]; the exception is the
      constructor of [exn] named after the Python class.
    - [print] calls are left out: they do not influence any returned value.
    - The retriever, which appends to lists and sorts one in place, is given
      a second time over a store of list objects (module [objects]); the two
      versions are proved to agree.
    - [save_knowledge_base] in the modules [hw6] and [hw7] is a write that
      succeeds and keeps the dumped value; a write that fails midway is not
      modelled, and the properties of the builds speak of what happens
      before the save or after it has returned. Module [written] gives the
      save with what [json.dump] does to strs, for the round trip. *)

From Stdlib Require Import ZArith Lia.
From stdpp Require Import base option list sorting gmap strings pretty.

Local Open Scope Z_scope.

(** ** Python values and exceptions *)

Inductive exn : Type :=
  | ValueError          (* range() with a zero step *)
  | IndexError          (* list index out of range *)
  | KeyError            (* missing dictionary key *)
  | TypeError           (* subscript on a value that has none *)
  | FileNotFoundError   (* open() of a missing file for reading *)
  | JSONDecodeError     (* json.load of text that is not JSON *)
  | APIError.           (* a failure reported by the hosted embedding service *)

Inductive result (A : Type) : Type :=
  | Ok (a : A)
  | Raise (e : exn).
Arguments Ok {A} a.
Arguments Raise {A} e.

#[global] Instance result_ret : MRet result := λ A a, Ok a.
#[global] Instance result_bind : MBind result := λ A B f m,
  match m with
  | Ok a => f a
  | Raise e => Raise e
  end.
#[global] Instance result_fmap : FMap result := λ A B f m,
  match m with
  | Ok a => Ok (f a)
  | Raise e => Raise e
  end.

(** A [for] loop whose body may raise: the accumulator is threaded from left
    to right and the first exception ends the loop. *)
Fixpoint for_each {A B : Type} (body : B → A → result B) (acc : B) (l : list A)
  : result B :=
  match l with
  | [] => Ok acc
  | x :: l' => acc' ← body acc x; for_each body acc' l'
  end.

(** A code point; a [str] is the list of its code points. *)
Definition char : Type := N.
Definition str : Type := list char.

(** A string literal of the source. *)
Definition lit (s : string) : str := Ascii.N_of_ascii <$> String.list_ascii_of_string s.
Definition newline : str := [10%N].
Definition dquote : str := [34%N].

(** [len(x)] *)
Definition len {A : Type} (l : list A) : Z := Z.of_nat (length l).

(** Normalisation of one bound of a slice: a negative bound counts from the
    end, and the result is clamped to [0, len]. *)
Definition slice_bound (n i : Z) : Z :=
  if i <? 0 then Z.max (i + n) 0 else Z.min i n.

(** [l[a:b]] *)
Definition py_slice {A : Type} (l : list A) (a b : Z) : list A :=
  let lo := slice_bound (len l) a in
  let hi := slice_bound (len l) b in
  take (Z.to_nat (hi - lo)) (drop (Z.to_nat lo) l).

(** [l[i]]: a negative index counts from the end, anything outside raises. *)
Definition py_index {A : Type} (l : list A) (i : Z) : result A :=
  let j := if i <? 0 then i + len l else i in
  if j <? 0 then Raise IndexError
  else match l !! Z.to_nat j with
       | Some x => Ok x
       | None => Raise IndexError
       end.

(** Number of elements of [range(start, stop, step)] for a non-zero step. *)
Definition range_len (start stop step : Z) : nat :=
  if 0 <? step
  then (if start <? stop then Z.to_nat ((stop - start - 1) / step + 1) else 0%nat)
  else (if stop <? start then Z.to_nat ((start - stop - 1) / (- step) + 1) else 0%nat).

(** [range(start, stop, step)], as the list it iterates over. *)
Definition py_range (start stop step : Z) : result (list Z) :=
  if decide (step = 0) then Raise ValueError
  else Ok ((λ j : nat, start + Z.of_nat j * step) <$> seq 0 (range_len start stop step)).

(** [enumerate(l)] *)
Definition enumerate {A : Type} (l : list A) : list (Z * A) :=
  imap (λ i x, (Z.of_nat i, x)) l.

(** [sep.join(parts)] *)
Fixpoint join (sep : str) (parts : list str) : str :=
  match parts with
  | [] => []
  | [p] => p
  | p :: ps => p ++ sep ++ join sep ps
  end.

(** [str.isspace] on one code point: the white space of Unicode. *)
Definition isspace (c : char) : bool :=
  let c := Z.of_N c in
  ((9 <=? c) && (c <=? 13)) || ((28 <=? c) && (c <=? 32))
  || (c =? 133) || (c =? 160) || (c =? 5760)
  || ((8192 <=? c) && (c <=? 8202))
  || (c =? 8232) || (c =? 8233) || (c =? 8239) || (c =? 8287) || (c =? 12288).

Fixpoint lstrip (s : str) : str :=
  match s with
  | [] => []
  | c :: s' => if isspace c then lstrip s' else s
  end.

Definition rstrip (s : str) : str := reverse (lstrip (reverse s)).

(** [s.strip()] *)
Definition strip (s : str) : str := rstrip (lstrip s).

(** [list.sort(key=..., reverse=...)] by its contract: the sort is stable and
    compares keys with [<] only; with [reverse] every comparison is reversed.
    The contract fixes the result where [<] is a strict weak order on the
    keys; on other keys, a NaN among them, the order depends on the steps of
    the sort, and no property below relies on it beyond being a permutation.
    [insert_stable before x l] puts [x], which stood in front of all of [l],
    behind exactly the leading elements that must come strictly before it. *)
Fixpoint insert_stable {A : Type} (before : A → A → bool) (x : A) (l : list A) : list A :=
  match l with
  | [] => [x]
  | y :: l' => if before y x then y :: insert_stable before x l' else x :: y :: l'
  end.

Definition list_sort {A K : Type} (lt : K → K → bool) (key : A → K) (reverse : bool)
    (l : list A) : list A :=
  foldr (insert_stable (λ a b, if reverse then lt (key b) (key a) else lt (key a) (key b))) [] l.

(** ** Values that [json] reads and writes *)

#[local] Unset Elimination Schemes.
Inductive pyval (num : Type) : Type :=
  | PNone
  | PBool (b : bool)
  | PInt (z : Z)
  | PFloat (x : num)
  | PStr (s : str)
  | PList (l : list (pyval num))
  | PDict (d : gmap str (pyval num)).
Arguments PNone {num}.
Arguments PBool {num} b.
Arguments PInt {num} z.
Arguments PFloat {num} x.
Arguments PStr {num} s.
Arguments PList {num} l.
Arguments PDict {num} d.
#[local] Set Elimination Schemes.

(** [d[key]] with a string key: only a dictionary can be subscripted so. *)
Definition py_getitem {num : Type} (d : pyval num) (key : str) : result (pyval num) :=
  match d with
  | PDict m => match m !! key with
               | Some v => Ok v
               | None => Raise KeyError
               end
  | _ => Raise TypeError
  end.

(** ** Collaborators *)

(** A vector of floating-point numbers. The arithmetic is left abstract: the
    scripts only multiply, sum and compare scores. *)
Definition vector (num : Type) : Type := list num.

Class Number (num : Type) : Type := {
  py_mul : num → num → num;       (* [a * b] *)
  py_sum : list num → num;        (* [sum(xs)] *)
  py_lt : num → num → bool        (* [a < b] *)
}.

(** The [input] argument of an embeddings request: one string or a list. *)
Inductive embedding_input : Type :=
  | One (text : str)
  | Many (texts : list str).

(** [client.embeddings.create(model=m, input=i, encoding_format="float")]:
    the embeddings of [response.data], in the order of the response. *)
Class Client (num : Type) : Type := {
  embeddings_create : str → embedding_input → result (list (vector num))
}.

(** [urllib.request.urlopen(url)] with [response.read().decode('utf-8')]: the
    text of the document, or nothing when one of the three calls raises. *)
Class Web : Type := {
  urlopen : str → option str
}.

(** [client.responses.create(model=m, input=[developer, user])], with the
    contents of the two messages: the [content] of every item of
    [response.output], in the order of the response. *)
Class Responses (answer : Type) : Type := {
  responses_create : str → str → str → result (list answer)
}.

(** How a step of a script ends that also downloads or divides. The
    exceptions of a download are not told apart. *)
Inductive raised : Type :=
  | DownloadError       (* raised by urlopen, read or decode *)
  | ZeroDivisionError   (* division by zero *)
  | Exn (e : exn).

Inductive outcome (A : Type) : Type :=
  | Returns (a : A)
  | Raises (r : raised).
Arguments Returns {A} a.
Arguments Raises {A} r.

Definition run {A : Type} (x : result A) : outcome A :=
  match x with
  | Ok a => Returns a
  | Raise e => Raises (Exn e)
  end.

(** The persisted files. [json.dump] writes the JSON document of a value and
    [json.load] reads the value of a JSON document back, so a file is kept as
    the value its text denotes, or as text that is not JSON at all. *)
Inductive file (num : Type) : Type :=
  | JsonText (v : pyval num)
  | OtherText.
Arguments JsonText {num} v.
Arguments OtherText {num}.

Abbreviation filesystem num := (gmap str (file num)).

(** [open(name, 'r')] *)
Definition open_r {num : Type} (fs : filesystem num) (name : str) : result (file num) :=
  match fs !! name with
  | Some f => Ok f
  | None => Raise FileNotFoundError
  end.

(** [json.load(f)] *)
Definition json_load {num : Type} (f : file num) : result (pyval num) :=
  match f with
  | JsonText v => Ok v
  | OtherText => Raise JSONDecodeError
  end.

(** [os.path.exists(name)] *)
Definition path_exists {num : Type} (fs : filesystem num) (name : str) : bool :=
  match fs !! name with
  | Some _ => true
  | None => false
  end.

(** The values the pipeline hands to [json.dump]. *)
Definition of_chunks {num : Type} (chunks : list str) : pyval num :=
  PList (PStr <$> chunks).
Definition of_embeddings {num : Type} (embeddings : list (vector num)) : pyval num :=
  PList ((λ v, PList (PFloat <$> v)) <$> embeddings).

(** ** hw6_asingh101.py *)

Module hw6.

Definition CHUNK_SIZE : Z := 800.
Definition OVERLAP : Z := 200.
Definition EMBEDDING_MODEL : str := lit "text-embedding-3-small".
Definition DOCUMENT_URLS : list str := [
  lit "https://www.gutenberg.org/files/1342/1342-0.txt";
  lit "https://www.gutenberg.org/files/11/11-0.txt"
].

Definition OUTPUT_FILE : str := lit "knowledge_base.json".

(** The loop of [download_documents], from the documents gathered so far. *)
Fixpoint download_loop {web : Web} (documents : list str) (urls : list str)
  : outcome (list str) :=
  match urls with
  | [] => Returns documents
  | url :: urls' =>
      match urlopen url with
      | Some text => download_loop (documents ++ [text]) urls'
      | None => Raises DownloadError
      end
  end.

Definition download_documents {web : Web} (urls : list str) : outcome (list str) :=
  let documents := [] in
  download_loop documents urls.

Definition semantic_chunk (text : str) (chunk_size overlap : Z) : result (list str) :=
  let chunks := [] in
  let stride := chunk_size - overlap in
  r ← py_range 0 (len text) stride;
  Ok (foldl (λ chunks i,
               let chunk := py_slice text i (i + chunk_size) in
               if 0 <? len (strip chunk) then chunks ++ [chunk] else chunks)
            chunks r).

Section WithClient.
Context {num : Type} {client : Client num}.

Definition embed (text : str) : result (vector num) :=
  resp ← embeddings_create EMBEDDING_MODEL (One text);
  py_index resp 0.

Definition compute_embeddings (chunks : list str) : result (list (vector num)) :=
  let embeddings := [] in
  let batch_size := 100 in
  r ← py_range 0 (len chunks) batch_size;
  for_each (λ embeddings i,
              let batch := py_slice chunks i (i + batch_size) in
              response ← embeddings_create EMBEDDING_MODEL (Many batch);
              let batch_embeddings := response in
              Ok (embeddings ++ batch_embeddings))
           embeddings r.
End WithClient.

Definition save_knowledge_base {num : Type} (chunks : list str)
    (embeddings : list (vector num)) (filename : str) (fs : filesystem num)
  : filesystem num :=
  let data := PDict (
    <[lit "chunks" := of_chunks chunks]> (
    <[lit "embeddings" := of_embeddings embeddings]> (
    <[lit "metadata" := PDict (
        <[lit "chunk_size" := PInt CHUNK_SIZE]> (
        <[lit "overlap" := PInt OVERLAP]> (
        <[lit "embedding_model" := PStr EMBEDDING_MODEL]> (
        <[lit "num_chunks" := PInt (len chunks)]> ∅))))]> ∅))) in
  <[filename := JsonText data]> fs.

Section WithServices.
Context {num : Type} {client : Client num} {web : Web}.

(** [main()]: how it ends, and the files it leaves. *)
Definition main (fs : filesystem num) : outcome unit * filesystem num :=
  match download_documents DOCUMENT_URLS with
  | Raises r => (Raises r, fs)
  | Returns documents =>
      let total_text := join (newline ++ newline) documents in
      match semantic_chunk total_text CHUNK_SIZE OVERLAP with
      | Raise e => (Raises (Exn e), fs)
      | Ok chunks =>
          match compute_embeddings chunks with
          | Raise e => (Raises (Exn e), fs)
          | Ok embeddings =>
              match py_index embeddings 0 with
              | Raise e => (Raises (Exn e), fs)
              | Ok first =>
                  let embedding_dim := len first in
                  let fs := save_knowledge_base chunks embeddings OUTPUT_FILE fs in
                  (* avg_length = sum(len(c) for c in chunks) / len(chunks) *)
                  if len chunks =? 0 then (Raises ZeroDivisionError, fs)
                  else (Returns (), fs)
              end
          end
      end
  end.
End WithServices.

End hw6.

(** ** asingh101_hw7.py *)

Module hw7.

Definition CHUNK_SIZE : Z := 800.
Definition OVERLAP : Z := 200.
Definition EMBEDDING_MODEL : str := lit "text-embedding-3-small".
Definition KNOWLEDGE_BASE_FILE : str := lit "knowledge_base.json".
Definition TOP_K : Z := 5.
Definition DOCUMENT_URLS : list str := hw6.DOCUMENT_URLS.

(** [download_documents] has the same text as in [hw6_asingh101.py]. *)
Definition download_documents {web : Web} : list str → outcome (list str) :=
  hw6.download_documents.

(** The three functions below have the same text as in [hw6_asingh101.py]. *)
Definition semantic_chunk : str → Z → Z → result (list str) := hw6.semantic_chunk.

Section WithClient.
Context {num : Type} {client : Client num}.

Definition embed : str → result (vector num) := hw6.embed.
Definition compute_embeddings : list str → result (list (vector num)) :=
  hw6.compute_embeddings.

Definition compute_query_embedding (query : str) : result (vector num) :=
  embed query.
End WithClient.

Definition save_knowledge_base {num : Type} (chunks : list str)
    (embeddings : list (vector num)) (fs : filesystem num) : filesystem num :=
  let data := PDict (
    <[lit "chunks" := of_chunks chunks]> (
    <[lit "embeddings" := of_embeddings embeddings]> (
    <[lit "metadata" := PDict (
        <[lit "chunk_size" := PInt CHUNK_SIZE]> (
        <[lit "overlap" := PInt OVERLAP]> (
        <[lit "embedding_model" := PStr EMBEDDING_MODEL]> (
        <[lit "num_chunks" := PInt (len chunks)]> ∅))))]> ∅))) in
  <[KNOWLEDGE_BASE_FILE := JsonText data]> fs.

Definition load_knowledge_base {num : Type} (fs : filesystem num)
  : result (pyval num * pyval num) :=
  f ← open_r fs KNOWLEDGE_BASE_FILE;
  data ← json_load f;
  chunks ← py_getitem data (lit "chunks");
  embeddings ← py_getitem data (lit "embeddings");
  Ok (chunks, embeddings).

Section WithServices.
Context {num : Type} {client : Client num} {web : Web}.

(** [initialize_knowledge_base()]: the two lists it returns, as the values
    they are, and the files it leaves. *)
Definition initialize_knowledge_base (fs : filesystem num)
  : outcome (pyval num * pyval num) * filesystem num :=
  if path_exists fs KNOWLEDGE_BASE_FILE then
    (run (load_knowledge_base fs), fs)
  else
    match download_documents DOCUMENT_URLS with
    | Raises r => (Raises r, fs)
    | Returns documents =>
        let total_text := join (newline ++ newline) documents in
        match semantic_chunk total_text CHUNK_SIZE OVERLAP with
        | Raise e => (Raises (Exn e), fs)
        | Ok chunks =>
            match compute_embeddings chunks with
            | Raise e => (Raises (Exn e), fs)
            | Ok embeddings =>
                let fs := save_knowledge_base chunks embeddings fs in
                (Returns (of_chunks chunks, of_embeddings embeddings), fs)
            end
        end
    end.
End WithServices.

Section WithNumber.
Context {num : Type} {number : Number num}.

Definition dot_product (v1 v2 : vector num) : num :=
  py_sum (zip_with py_mul v1 v2).

Definition retrieve_relevant_chunks (query_embedding : vector num)
    (chunk_embeddings : list (vector num)) (chunks : list str) (k : Z)
  : result (list (str * num) * list Z) :=
  let similarities :=
    foldl (λ similarities chunk_emb,
             let similarity := dot_product query_embedding chunk_emb in
             similarities ++ [similarity])
          [] chunk_embeddings in
  let indexed_similarities := enumerate similarities in
  let indexed_similarities := list_sort py_lt snd true indexed_similarities in
  let topk_indices := fst <$> py_slice indexed_similarities 0 k in
  retrieved_chunks ←
    mapM (λ i, c ← py_index chunks i; s ← py_index similarities i; Ok (c, s))
         topk_indices;
  Ok (retrieved_chunks, topk_indices).
End WithNumber.

Definition create_augmented_prompt {num : Type} (query : str)
    (retrieved_chunks : list (str * num)) (topk_indices : list Z)
    (chunks : list str) : result str :=
  let context := [] in
  context ←
    for_each (λ context '(i, idx),
                chunk ← py_index chunks idx;
                Ok (context ++ [
                  newline
                  ++ lit "<retrieved_knowledge id=" ++ dquote ++ lit "document-"
                         ++ lit (pretty i) ++ dquote ++ lit ">" ++ newline
                  ++ chunk ++ newline
                  ++ lit "</retrieved_knowledge>" ++ newline]))
             context (enumerate topk_indices);
  let developer_prompt :=
    lit "Use the following to answer questions." ++ newline
      ++ join newline context ++ newline in
  Ok developer_prompt.

Section WithAnswers.
Context {num answer : Type} {number : Number num} {client : Client num}
  {responses : Responses answer}.

Definition send_rag_query (query : str) (chunks : list str)
    (embeddings : list (vector num)) : result answer :=
  query_embedding ← compute_query_embedding query;
  '(retrieved_chunks, topk_indices) ←
    retrieve_relevant_chunks query_embedding embeddings chunks TOP_K;
  developer_prompt ←
    create_augmented_prompt query retrieved_chunks topk_indices chunks;
  output ← responses_create (lit "gpt-4o-mini") developer_prompt query;
  answer ← py_index output 0;
  Ok answer.
End WithAnswers.

End hw7.

(** ** Files as [json] writes them

    [json.dump(data, f)] escapes every code point outside printable ASCII as
    [\uXXXX], one above U+FFFF as the two escapes of its surrogate pair, and
    [json.load] reads the escape of a high surrogate that is followed by the
    escape of a low surrogate as the one code point of that pair. So the str
    that is read back is [reread_str] of the str that was dumped: two
    neighbouring code points that form a surrogate pair come back as one.
    Numbers, booleans and [None] are read back as they were written. *)
Definition is_high_surrogate (c : char) : bool :=
  ((55296 <=? c) && (c <=? 56319))%N.        (* U+D800 .. U+DBFF *)
Definition is_low_surrogate (c : char) : bool :=
  ((56320 <=? c) && (c <=? 57343))%N.        (* U+DC00 .. U+DFFF *)

(** [0x10000 + (((hi - 0xd800) << 10) | (lo - 0xdc00))] *)
Definition join_surrogates (hi lo : char) : char :=
  (65536 + N.lor (N.shiftl (hi - 55296) 10) (lo - 56320))%N.

Fixpoint reread_str (s : str) : str :=
  match s with
  | [] => []
  | c :: s' =>
      match s' with
      | lo :: rest =>
          if is_high_surrogate c && is_low_surrogate lo
          then join_surrogates c lo :: reread_str rest
          else c :: reread_str s'
      | [] => [c]
      end
  end.

(** The value that [json.load] reads from the text [json.dump] wrote for
    [v]: every str of [v], the keys of its dictionaries included, is read
    back as [reread_str] tells. *)
Fixpoint reread {num : Type} (v : pyval num) : pyval num :=
  match v with
  | PStr s => PStr (reread_str s)
  | PList l => PList (reread <$> l)
  | PDict d => PDict (kmap reread_str (reread <$> d))
  | _ => v
  end.

(** [json.dump(v, f)] into a fresh file: the file, as the value its text
    denotes. *)
Definition json_dump {num : Type} (v : pyval num) : file num :=
  JsonText (reread v).

(** [save_knowledge_base] of the two scripts once more, with the text that
    [json.dump] writes. The definitions of the modules [hw6] and [hw7] keep
    the dumped value itself, which is what is read back unless a chunk holds
    a surrogate pair. *)
Module written.

Definition hw6_save_knowledge_base {num : Type} (chunks : list str)
    (embeddings : list (vector num)) (filename : str) (fs : filesystem num)
  : filesystem num :=
  let data := PDict (
    <[lit "chunks" := of_chunks chunks]> (
    <[lit "embeddings" := of_embeddings embeddings]> (
    <[lit "metadata" := PDict (
        <[lit "chunk_size" := PInt hw6.CHUNK_SIZE]> (
        <[lit "overlap" := PInt hw6.OVERLAP]> (
        <[lit "embedding_model" := PStr hw6.EMBEDDING_MODEL]> (
        <[lit "num_chunks" := PInt (len chunks)]> ∅))))]> ∅))) in
  <[filename := json_dump data]> fs.

Definition hw7_save_knowledge_base {num : Type} (chunks : list str)
    (embeddings : list (vector num)) (fs : filesystem num) : filesystem num :=
  let data := PDict (
    <[lit "chunks" := of_chunks chunks]> (
    <[lit "embeddings" := of_embeddings embeddings]> (
    <[lit "metadata" := PDict (
        <[lit "chunk_size" := PInt hw7.CHUNK_SIZE]> (
        <[lit "overlap" := PInt hw7.OVERLAP]> (
        <[lit "embedding_model" := PStr hw7.EMBEDDING_MODEL]> (
        <[lit "num_chunks" := PInt (len chunks)]> ∅))))]> ∅))) in
  <[hw7.KNOWLEDGE_BASE_FILE := json_dump data]> fs.

End written.

(** ** List objects

    [retrieve_relevant_chunks] updates lists in place ([append], [sort]). To
    follow these updates the function is given a second time, over a store
    that maps the identity of every list object to its items. Strings,
    numbers and tuples are immutable and are kept by value; a list of lists
    holds the identities of its items. *)

Definition loc : Type := positive.

Inductive obj (num : Type) : Type :=
  | Floats (xs : list num)            (* a list of numbers *)
  | Vectors (vs : list loc)           (* a list of lists of numbers *)
  | Strs (ss : list str)              (* a list of strings *)
  | Pairs (ps : list (Z * num))       (* a list of (index, score) tuples *)
  | Ints (zs : list Z)                (* a list of integers *)
  | Results (rs : list (str * num)).  (* a list of (chunk, score) tuples *)
Arguments Floats {num} xs.
Arguments Vectors {num} vs.
Arguments Strs {num} ss.
Arguments Pairs {num} ps.
Arguments Ints {num} zs.
Arguments Results {num} rs.

Abbreviation store num := (gmap loc (obj num)).

(** A computation over the store: it ends with a value or an exception, and
    with the store as it has left it. *)
Definition M (num A : Type) : Type := store num → result A * store num.

#[global] Instance M_ret {num} : MRet (M num) := λ A a h, (Ok a, h).
#[global] Instance M_bind {num} : MBind (M num) := λ A B f m h,
  match m h with
  | (Ok a, h') => f a h'
  | (Raise e, h') => (Raise e, h')
  end.

(** A computation that does not look at the store. *)
Definition lift {num A : Type} (x : result A) : M num A := λ h, (x, h).

(** A new list object. *)
Definition new {num : Type} (o : obj num) : M num loc := λ h,
  let r := fresh (dom h) in (Ok r, <[r := o]> h).

(** The items of a list object; a list of another kind is a type error. *)
Definition get_floats {num : Type} (r : loc) : M num (list num) := λ h,
  (match h !! r with Some (Floats xs) => Ok xs | _ => Raise TypeError end, h).
Definition get_vectors {num : Type} (r : loc) : M num (list loc) := λ h,
  (match h !! r with Some (Vectors vs) => Ok vs | _ => Raise TypeError end, h).
Definition get_strs {num : Type} (r : loc) : M num (list str) := λ h,
  (match h !! r with Some (Strs ss) => Ok ss | _ => Raise TypeError end, h).
Definition get_pairs {num : Type} (r : loc) : M num (list (Z * num)) := λ h,
  (match h !! r with Some (Pairs ps) => Ok ps | _ => Raise TypeError end, h).
Definition get_ints {num : Type} (r : loc) : M num (list Z) := λ h,
  (match h !! r with Some (Ints zs) => Ok zs | _ => Raise TypeError end, h).

(** The update of a list object in place. *)
Definition put {num : Type} (r : loc) (o : obj num) : M num unit := λ h,
  (Ok (), <[r := o]> h).

(** [for x in l: body] *)
Fixpoint for_in {num A : Type} (l : list A) (body : A → M num unit) : M num unit :=
  match l with
  | [] => mret ()
  | x :: l' => _ ← body x; for_in l' body
  end.

Module objects.
Section WithNumber.
Context {num : Type} {number : Number num}.

Definition dot_product (v1 v2 : loc) : M num num :=
  xs ← get_floats v1;
  ys ← get_floats v2;
  mret (py_sum (zip_with py_mul xs ys)).

Definition retrieve_relevant_chunks (query_embedding chunk_embeddings chunks : loc)
    (k : Z) : M num (loc * loc) :=
  similarities ← new (Floats []);
  items ← get_vectors chunk_embeddings;
  _ ← for_in items (λ chunk_emb,
        similarity ← dot_product query_embedding chunk_emb;
        xs ← get_floats similarities;
        put similarities (Floats (xs ++ [similarity])));
  xs ← get_floats similarities;
  indexed_similarities ← new (Pairs (enumerate xs));
  ps ← get_pairs indexed_similarities;
  _ ← put indexed_similarities (Pairs (list_sort py_lt snd true ps));
  ps ← get_pairs indexed_similarities;
  topk_indices ← new (Ints (fst <$> py_slice ps 0 k));
  zs ← get_ints topk_indices;
  rs ← mapM (λ i,
               ss ← get_strs chunks;
               c ← lift (py_index ss i);
               xs ← get_floats similarities;
               s ← lift (py_index xs i);
               mret (c, s))
            zs;
  retrieved_chunks ← new (Results rs);
  mret (retrieved_chunks, topk_indices).

End WithNumber.
End objects.

(** ** Exact integers as numbers, for the examples *)

#[global] Instance Z_number : Number Z := {|
  py_mul := Z.mul;
  py_sum := foldl Z.add 0;
  py_lt := Z.ltb
|}.

(** Integers and a number that is not one, for the examples: [None] is NaN,
    which every product and sum that meets it gives back and which is
    neither smaller nor greater than anything. *)
#[global] Instance nan_number : Number (option Z) := {|
  py_mul a b := x ← a; y ← b; Some (x * y);
  py_sum xs := foldl (λ acc b, x ← acc; y ← b; Some (x + y)) (Some 0) xs;
  py_lt a b := match a, b with
               | Some x, Some y => x <? y
               | _, _ => false
               end
|}.

(** ** Notions used to state the properties *)

(** The str [s] holds no high surrogate right before a low one. *)
Definition no_surrogate_pair (s : str) : Prop :=
  ∀ (i : nat) (hi lo : char),
    s !! i = Some hi → s !! S i = Some lo →
    is_high_surrogate hi && is_low_surrogate lo = false.

(** The window that starts at offset [i], and whether the chunker keeps it. *)
Definition window (text : str) (chunk_size i : Z) : str :=
  py_slice text i (i + chunk_size).

Definition retained (text : str) (chunk_size i : Z) : bool :=
  0 <? len (strip (window text chunk_size i)).

(** The offsets of the chunks that [semantic_chunk] returns, in order. *)
Definition chunk_offsets (text : str) (chunk_size overlap : Z) : result (list Z) :=
  r ← py_range 0 (len text) (chunk_size - overlap);
  Ok (filter (λ i, retained text chunk_size i) r).

(** With a positive stride the retained offsets are the multiples [j * stride]
    of the window numbers [j] that pass the white-space test. *)
Definition retained_windows (text : str) (chunk_size stride : Z) : list nat :=
  filter (λ j : nat, retained text chunk_size (Z.of_nat j * stride))
         (seq 0 (range_len 0 (len text) stride)).

(** Every chunk but the last one has exactly [chunk_size] characters. *)
Definition fixed_size_except_last (chunks : list str) (chunk_size : Z) : Prop :=
  ∀ (i : nat) (c : str),
    chunks !! i = Some c → (S i < length chunks)%nat → len c = chunk_size.

(** Consecutive offsets are exactly [stride] apart. *)
Definition stride_between_retained (offsets : list Z) (stride : Z) : Prop :=
  ∀ (i : nat) (a b : Z),
    offsets !! i = Some a → offsets !! S i = Some b → b - a = stride.

(** The batches that [compute_embeddings] submits, in order. *)
Definition batches (chunks : list str) : list (list str) :=
  (λ j : nat, py_slice chunks (Z.of_nat j * 100) (Z.of_nat j * 100 + 100))
    <$> seq 0 (range_len 0 (len chunks) 100).

(** The embedding service as a pure, order-preserving function [e] of the
    model and the text: a request for one text answers with the one vector
    [e model text], a request for a batch of 1 to 100 texts with the vectors
    of its texts, in their order. *)
Definition order_preserving {num : Type} `{!Client num}
    (e : str → str → vector num) : Prop :=
  (∀ model text, embeddings_create model (One text) = Ok [e model text]) ∧
  (∀ model texts, (1 ≤ length texts ≤ 100)%nat →
     embeddings_create model (Many texts) = Ok (e model <$> texts)).

(** A service of that kind, for the examples: the vector of a text holds its
    length. *)
Definition length_client : Client Z := {|
  embeddings_create _ input :=
    match input with
    | One text => Ok [[len text]]
    | Many texts => Ok ((λ text, [len text]) <$> texts)
    end
|}.

(** Two more services for the examples: one that is down, and one that
    answers every request with the one vector [[1]]. *)
Definition down_client : Client Z := {|
  embeddings_create _ _ := Raise APIError
|}.

Definition terse_client : Client Z := {|
  embeddings_create _ _ := Ok [[1]]
|}.

(** Documents and answers for the examples: a site whose every document is
    the text ["Call me Ishmael."], a site of blank documents, a site that is
    unreachable, and a generator that answers with the user's message. *)
Definition ishmael_web : Web := {|
  urlopen _ := Some (lit "Call me Ishmael.")
|}.

Definition blank_web : Web := {|
  urlopen _ := Some (lit "   ")
|}.

Definition unreachable_web : Web := {|
  urlopen _ := None
|}.

Definition echo_responses : Responses str := {|
  responses_create _ _ user := Ok [user]
|}.

(** What a sort needs of [<] on the keys it meets: it is asymmetric, and
    being not smaller is transitive. Floating-point [<] is so on every list
    that holds no NaN. *)
Definition strict_weak_on {K : Type} (lt : K → K → bool) (keys : list K) : Prop :=
  (∀ a b, a ∈ keys → b ∈ keys → lt a b = true → lt b a = false) ∧
  (∀ a b c, a ∈ keys → b ∈ keys → c ∈ keys →
     lt a b = false → lt b c = false → lt a c = false).

Section RankingNotions.
Context {num : Type} {number : Number num}.

(** The score of every stored embedding against the query, in store order. *)
Definition similarities (query_embedding : vector num)
    (chunk_embeddings : list (vector num)) : list num :=
  hw7.dot_product query_embedding <$> chunk_embeddings.

(** [(i, s)] ranks before [(j, t)]: its score is greater, or neither score is
    smaller than the other and its index is smaller. *)
Definition ranked_before (a b : Z * num) : Prop :=
  py_lt b.2 a.2 = true ∨ (py_lt a.2 b.2 = false ∧ py_lt b.2 a.2 = false ∧ a.1 < b.1).

(** All (index, score) pairs after the sort of [retrieve_relevant_chunks]. *)
Definition ranking (query_embedding : vector num)
    (chunk_embeddings : list (vector num)) : list (Z * num) :=
  list_sort py_lt snd true (enumerate (similarities query_embedding chunk_embeddings)).

End RankingNotions.

(** The delimited block that shows [text] under the tag [document-i]. *)
Definition knowledge_block (i : Z) (text : str) : str :=
  newline
  ++ lit "<retrieved_knowledge id=" ++ dquote ++ lit "document-"
         ++ lit (pretty i) ++ dquote ++ lit ">" ++ newline
  ++ text ++ newline
  ++ lit "</retrieved_knowledge>" ++ newline.

(** The developer prompt that shows the texts [texts], in their order: the
    block at position [i] is tagged [document-i]. *)
Definition prompt_of (texts : list str) : str :=
  lit "Use the following to answer questions." ++ newline
    ++ join newline (imap (λ (i : nat) text, knowledge_block (Z.of_nat i) text) texts)
    ++ newline.

(** The store [h] holds the query vector, the embeddings and the chunks as
    the list objects [qe], [ce] and [ch]. *)
Definition holds {num : Type} (h : store num) (qe ce ch : loc)
    (q : vector num) (embs : list (vector num)) (chunks : list str) : Prop :=
  h !! qe = Some (Floats q) ∧
  (∃ vs, h !! ce = Some (Vectors vs) ∧
         Forall2 (λ v e, h !! v = Some (Floats e)) vs embs) ∧
  h !! ch = Some (Strs chunks).

(** Every object of [h] is in [h'] as it is in [h]. *)
Definition unchanged {num : Type} (h h' : store num) : Prop :=
  ∀ r o, h !! r = Some o → h' !! r = Some o.

(** [m], started in any store that has the objects of [h0] as they are in
    [h0], ends in such a store again, and a value it returns satisfies [Q]. *)
Definition keeps {num A : Type} (h0 : store num) (m : M num A) (Q : A → Prop) : Prop :=
  ∀ h, unchanged h0 h → unchanged h0 (m h).2 ∧ ∀ a, (m h).1 = Ok a → Q a.

(** * Properties *)

(** ** Python helpers *)

Lemma len_nonneg {A} (l : list A) : 0 ≤ len l.
Proof. unfold len. lia. Qed.

Lemma py_range_zero_step start stop : py_range start stop 0 = Raise ValueError.
Proof. reflexivity. Qed.

Lemma py_range_neg_step stop step :
  step < 0 → 0 ≤ stop → py_range 0 stop step = Ok [].
Proof.
  intros Hstep Hstop. unfold py_range, range_len.
  destruct (decide (step = 0)) as [->|_]; [lia|].
  destruct (Z.ltb_spec 0 step); [lia|].
  destruct (Z.ltb_spec stop 0); [lia|]. reflexivity.
Qed.

(** With a positive step, [range(0, stop, step)] is [0, step, 2*step, ...]
    below [stop]. *)
Lemma py_range_pos_step stop step :
  0 < step →
  py_range 0 stop step
  = Ok ((λ j : nat, Z.of_nat j * step) <$> seq 0 (range_len 0 stop step)).
Proof.
  intros Hstep. unfold py_range.
  destruct (decide (step = 0)) as [->|_]; [lia|]. reflexivity.
Qed.

Lemma range_len_pos_lt stop step (j : nat) :
  0 < step → (j < range_len 0 stop step)%nat ↔ Z.of_nat j * step < stop.
Proof.
  intros Hstep. unfold range_len.
  destruct (Z.ltb_spec 0 step); [|lia].
  destruct (Z.ltb_spec 0 stop) as [Hs|Hs].
  - rewrite Z.sub_0_r.
    assert (0 ≤ (stop - 1) / step) by (apply Z.div_pos; lia).
    split; intros Hj.
    + assert (Z.of_nat j ≤ (stop - 1) / step) as Hle by lia.
      pose proof (Z.mul_div_le (stop - 1) step Hstep).
      nia.
    + assert (Z.of_nat j ≤ (stop - 1) / step); [|lia].
      apply Z.div_le_lower_bound; lia.
  - split; [lia|]. intros Hj. nia.
Qed.

Lemma foldl_append_filter {A B} (P : A → bool) (f : A → B) (l : list A) (acc : list B) :
  foldl (λ acc i, if P i then acc ++ [f i] else acc) acc l
  = acc ++ (f <$> filter (λ i, P i) l).
Proof.
  revert acc. induction l as [|x l IH]; intros acc; simpl.
  - by rewrite app_nil_r.
  - rewrite IH. destruct (P x) eqn:HP.
    + rewrite filter_cons_True by (by rewrite HP).
      by rewrite <- app_assoc.
    + rewrite filter_cons_False by (rewrite HP; simpl; tauto). done.
Qed.

(** Two neighbours of a filtered list are separated, in the list that was
    filtered, by rejected elements only. *)
Lemma filter_head_lookup {A} (P : A → Prop) `{!∀ x, Decision (P x)} (l : list A) b :
  filter P l !! 0%nat = Some b →
  ∃ q : nat, l !! q = Some b ∧ ∀ (r : nat) x, (r < q)%nat → l !! r = Some x → ¬ P x.
Proof.
  induction l as [|x l IH]; [done|].
  destruct (decide (P x)) as [HP|HP].
  - rewrite filter_cons_True by done. intros [= ->].
    exists 0%nat. split; [done|]. intros; lia.
  - rewrite filter_cons_False by done. intros Hb.
    destruct (IH Hb) as (q & Hq & Hbefore).
    exists (S q). split; [done|].
    intros [|r] y Hr Hy; simplify_eq/=; [done|].
    eapply Hbefore; [|done]. lia.
Qed.

Lemma filter_consecutive {A} (P : A → Prop) `{!∀ x, Decision (P x)} (l : list A) i a b :
  filter P l !! i = Some a → filter P l !! S i = Some b →
  ∃ p q : nat, (p < q)%nat ∧ l !! p = Some a ∧ l !! q = Some b ∧ P a ∧ P b ∧
    ∀ (r : nat) x, (p < r < q)%nat → l !! r = Some x → ¬ P x.
Proof.
  revert i. induction l as [|x l IH]; intros i; [done|].
  destruct (decide (P x)) as [HP|HP].
  - rewrite filter_cons_True by done. destruct i as [|i]; simpl.
    + intros [= ->] Hb.
      destruct (filter_head_lookup P l b Hb) as (q & Hq & Hbefore).
      exists 0%nat, (S q). split_and!; [lia|done|done|done| |].
      * apply (list_elem_of_filter P l b), list_elem_of_lookup. eauto.
      * intros [|r] y Hr Hy; [lia|]. simpl in Hy. eapply Hbefore; [|done]. lia.
    + intros Ha Hb. destruct (IH i Ha Hb) as (p & q & ? & ? & ? & ? & ? & Hbetween).
      exists (S p), (S q). split_and!; [lia|done..|].
      intros [|r] y Hr Hy; [lia|]. simpl in Hy. eapply Hbetween; [|done]. lia.
  - rewrite filter_cons_False by done. intros Ha Hb.
    destruct (IH i Ha Hb) as (p & q & ? & ? & ? & ? & ? & Hbetween).
    exists (S p), (S q). split_and!; [lia|done..|].
    intros [|r] y Hr Hy; [lia|]. simpl in Hy. eapply Hbetween; [|done]. lia.
Qed.

Lemma filter_fmap_comm {A B} (P : B → Prop) `{!∀ x, Decision (P x)} (f : A → B) (l : list A) :
  filter P (f <$> l) = f <$> filter (P ∘ f) l.
Proof.
  induction l as [|x l IH]; [done|]. rewrite fmap_cons.
  destruct (decide (P (f x))) as [HP|HP].
  - rewrite !filter_cons_True by done. by rewrite fmap_cons, IH.
  - by rewrite !filter_cons_False by done.
Qed.

Lemma filter_StronglySorted {A} (R : relation A) (P : A → Prop)
    `{!∀ x, Decision (P x)} (l : list A) :
  StronglySorted R l → StronglySorted R (filter P l).
Proof.
  induction 1 as [|x l Hl IH Hx]; [constructor|].
  destruct (decide (P x)).
  - rewrite filter_cons_True by done. constructor; [done|].
    rewrite Forall_forall in Hx |- *. intros y [_ Hy]%list_elem_of_filter. auto.
  - by rewrite filter_cons_False.
Qed.

Lemma seq_StronglySorted (start n : nat) : StronglySorted Nat.lt (seq start n).
Proof.
  revert start. induction n as [|n IH]; intros start; simpl; constructor; [done|].
  rewrite Forall_forall. intros y Hy%elem_of_seq. lia.
Qed.

(** ** Slices *)

Lemma slice_bound_range n i : 0 ≤ n → 0 ≤ slice_bound n i ≤ n.
Proof. unfold slice_bound. destruct (Z.ltb_spec i 0); lia. Qed.

Lemma len_py_slice {A} (l : list A) a b :
  len (py_slice l a b)
  = Z.max 0 (slice_bound (len l) b - slice_bound (len l) a).
Proof.
  pose proof (slice_bound_range (len l) a (len_nonneg l)).
  pose proof (slice_bound_range (len l) b (len_nonneg l)).
  unfold py_slice, len in *. rewrite length_take, length_drop. lia.
Qed.

(** A window that starts inside the text is cut at the end of the text. *)
Lemma len_window text chunk_size i :
  0 < chunk_size → 0 ≤ i < len text →
  len (window text chunk_size i) = Z.min chunk_size (len text - i).
Proof.
  intros Hc Hi. unfold window. rewrite len_py_slice. unfold slice_bound.
  destruct (Z.ltb_spec i 0); [lia|].
  destruct (Z.ltb_spec (i + chunk_size) 0); lia.
Qed.

(** ** Chunker *)

Lemma semantic_chunk_offsets (text : str) (chunk_size overlap : Z) :
  hw6.semantic_chunk text chunk_size overlap
  = (offs ← chunk_offsets text chunk_size overlap;
     Ok (window text chunk_size <$> (offs : list Z))).
Proof.
  unfold hw6.semantic_chunk, chunk_offsets.
  destruct (py_range 0 (len text) (chunk_size - overlap)) as [r|e]; [|done].
  simpl. f_equal.
  apply (foldl_append_filter (retained text chunk_size) (window text chunk_size)).
Qed.

Lemma chunk_offsets_pos_stride text chunk_size overlap :
  0 < chunk_size - overlap →
  chunk_offsets text chunk_size overlap
  = Ok ((λ j : nat, Z.of_nat j * (chunk_size - overlap))
          <$> retained_windows text chunk_size (chunk_size - overlap)).
Proof.
  intros Hstride. unfold chunk_offsets, retained_windows.
  rewrite py_range_pos_step by done. simpl. f_equal.
  by rewrite filter_fmap_comm.
Qed.

Lemma retained_windows_sorted text chunk_size stride :
  StronglySorted Nat.lt (retained_windows text chunk_size stride).
Proof. apply filter_StronglySorted, seq_StronglySorted. Qed.

Lemma retained_windows_spec text chunk_size stride (j : nat) :
  0 < stride →
  j ∈ retained_windows text chunk_size stride ↔
  Z.of_nat j * stride < len text ∧ retained text chunk_size (Z.of_nat j * stride) = true.
Proof.
  intros Hstride. unfold retained_windows.
  rewrite list_elem_of_filter, elem_of_seq, <- (range_len_pos_lt (len text) stride j Hstride).
  rewrite Is_true_true. split; [intros [? ?]|intros [? ?]]; split; (done || lia).
Qed.

Lemma retained_nonblank text chunk_size i :
  retained text chunk_size i = true → strip (window text chunk_size i) ≠ [].
Proof.
  unfold retained. intros H%Z.ltb_lt Hnil. rewrite Hnil in H. unfold len in H. simpl in H. lia.
Qed.

(** C1, as stated, fails twice. With [chunk_size = 3] and [overlap = 2] the
    text ["abcd"] gives the chunks ["abc"], ["bcd"], ["cd"], ["d"]: the chunk
    ["cd"] is not the last one and is shorter than [chunk_size]. With
    [chunk_size = 1] and [overlap = 0] the text ["a b"] gives the chunks ["a"]
    and ["b"] at the offsets 0 and 2, the blank window at offset 1 being
    dropped: the retained neighbours are 2 apart and the stride is 1. *)
Lemma stride_invariant_counterexample :
  (0 < 3 ∧ 0 ≤ 2 < 3) ∧
  hw6.semantic_chunk (lit "abcd") 3 2 = Ok [lit "abc"; lit "bcd"; lit "cd"; lit "d"] ∧
  ¬ fixed_size_except_last [lit "abc"; lit "bcd"; lit "cd"; lit "d"] 3 ∧
  (0 < 1 ∧ 0 ≤ 0 < 1) ∧
  hw6.semantic_chunk (lit "a b") 1 0 = Ok [lit "a"; lit "b"] ∧
  chunk_offsets (lit "a b") 1 0 = Ok [0; 2] ∧
  ¬ stride_between_retained [0; 2] (1 - 0).
Proof.
  split_and!; try lia; try (vm_compute; reflexivity).
  - intros H. specialize (H 2%nat (lit "cd") eq_refl). vm_compute in H.
    assert (2 = 3) as Habs by (apply H; lia). lia.
  - intros H. specialize (H 0%nat 0 2 eq_refl eq_refl). lia.
Qed.

(** Two consecutive retained offsets are a positive number of strides apart,
    and every window between them was dropped. *)
Lemma retained_offsets_step (text : str) (chunk_size stride : Z) (i : nat) (a b : Z) :
  0 < stride →
  let offs := (λ j : nat, Z.of_nat j * stride) <$> retained_windows text chunk_size stride in
  offs !! i = Some a → offs !! S i = Some b →
  ∃ m, 1 ≤ m ∧ b - a = m * stride ∧
    ∀ j, 1 ≤ j < m → retained text chunk_size (a + j * stride) = false.
Proof.
  intros Hstride offs (p & -> & Hp)%list_lookup_fmap_Some (q & -> & Hq)%list_lookup_fmap_Some.
  unfold retained_windows in Hp, Hq.
  destruct (filter_consecutive _ _ _ _ _ Hp Hq)
    as (p' & q' & Hlt & Hp' & Hq' & _ & _ & Hbetween).
  apply lookup_seq in Hp' as [-> _]. apply lookup_seq in Hq' as [-> Hqn].
  simpl in *.
  exists (Z.of_nat q' - Z.of_nat p'). split_and!; [lia|lia|].
  intros j Hj.
  specialize (Hbetween (p' + Z.to_nat j)%nat (p' + Z.to_nat j)%nat).
  destruct (retained text chunk_size (Z.of_nat p' * stride + j * stride)) eqn:Hret; [|done].
  exfalso. apply Hbetween.
  - lia.
  - apply lookup_seq. lia.
  - replace (Z.of_nat (p' + Z.to_nat j) * stride)
      with (Z.of_nat p' * stride + j * stride) by lia.
    by rewrite Hret.
Qed.

(** C1 (amended): for a valid configuration the chunk that starts at offset
    [a] has [min(chunk_size, len(text) - a)] characters, so exactly
    [chunk_size] when its window fits in the text, and the offsets of two
    consecutive retained chunks differ by [m * (chunk_size - overlap)] for
    some [m >= 1], the [m - 1] windows in between being the dropped ones.
    Without overlap only the last chunk can be shorter than [chunk_size]. *)
Theorem chunk_lengths_and_strides (text : str) (chunk_size overlap : Z) :
  0 < chunk_size → 0 ≤ overlap < chunk_size →
  ∃ offs : list Z,
    chunk_offsets text chunk_size overlap = Ok offs ∧
    hw6.semantic_chunk text chunk_size overlap = Ok (window text chunk_size <$> offs) ∧
    (∀ a, a ∈ offs →
       0 ≤ a < len text ∧
       len (window text chunk_size a) = Z.min chunk_size (len text - a)) ∧
    (∀ (i : nat) a b, offs !! i = Some a → offs !! S i = Some b →
       ∃ m, 1 ≤ m ∧ b - a = m * (chunk_size - overlap) ∧
         ∀ j, 1 ≤ j < m →
           retained text chunk_size (a + j * (chunk_size - overlap)) = false) ∧
    (overlap = 0 → fixed_size_except_last (window text chunk_size <$> offs) chunk_size).
Proof.
  intros Hsize Hoverlap.
  set (stride := chunk_size - overlap). assert (0 < stride) as Hstride by (unfold stride; lia).
  set (offs := (λ j : nat, Z.of_nat j * stride) <$> retained_windows text chunk_size stride).
  assert (∀ a, a ∈ offs →
            0 ≤ a < len text ∧
            len (window text chunk_size a) = Z.min chunk_size (len text - a)) as Hlen.
  { intros a (j & -> & Hj)%list_elem_of_fmap.
    apply retained_windows_spec in Hj as [Hlt _]; [|done].
    split; [lia|]. apply len_window; lia. }
  exists offs. split_and!.
  - by apply chunk_offsets_pos_stride.
  - rewrite semantic_chunk_offsets, chunk_offsets_pos_stride by done. done.
  - done.
  - intros i a b. by apply retained_offsets_step.
  - intros -> i c Hc Hi. rewrite length_fmap in Hi.
    apply list_lookup_fmap_Some in Hc as (a & -> & Ha).
    destruct (lookup_lt_is_Some_2 offs (S i) Hi) as [b Hb].
    destruct (retained_offsets_step text chunk_size stride i a b Hstride Ha Hb)
      as (m & Hm & Hstep & _).
    destruct (Hlen a) as [_ ->]; [apply list_elem_of_lookup; eauto|].
    destruct (Hlen b) as [Hb' _]; [apply list_elem_of_lookup; eauto|].
    unfold stride in Hstep. nia.
Qed.

(** The amended C1 at the text ["abcd"] with [chunk_size = 3], [overlap = 2]. *)
Lemma chunk_lengths_and_strides_witness :
  ∃ offs : list Z,
    chunk_offsets (lit "abcd") 3 2 = Ok offs ∧
    hw6.semantic_chunk (lit "abcd") 3 2 = Ok (window (lit "abcd") 3 <$> offs) ∧
    (∀ a, a ∈ offs →
       0 ≤ a < len (lit "abcd") ∧
       len (window (lit "abcd") 3 a) = Z.min 3 (len (lit "abcd") - a)) ∧
    (∀ (i : nat) a b, offs !! i = Some a → offs !! S i = Some b →
       ∃ m, 1 ≤ m ∧ b - a = m * (3 - 2) ∧
         ∀ j, 1 ≤ j < m → retained (lit "abcd") 3 (a + j * (3 - 2)) = false) ∧
    (2 = 0 → fixed_size_except_last (window (lit "abcd") 3 <$> offs) 3).
Proof. apply (chunk_lengths_and_strides (lit "abcd") 3 2); lia. Defined.

(** The default configuration on 1500 characters: windows at 0, 600 and
    1200, the last one cut to 300 characters. On 1300 characters the last two
    chunks are both shorter than [CHUNK_SIZE]. *)
Example default_configuration_1500 :
  chunk_offsets (replicate 1500 97%N) hw6.CHUNK_SIZE hw6.OVERLAP = Ok [0; 600; 1200] ∧
  (λ chunks : list str, len <$> chunks)
    <$> hw6.semantic_chunk (replicate 1500 97%N) hw6.CHUNK_SIZE hw6.OVERLAP
  = Ok [800; 800; 300].
Proof. split; vm_compute; reflexivity. Qed.

Example default_configuration_1300 :
  (λ chunks : list str, len <$> chunks)
    <$> hw6.semantic_chunk (replicate 1300 97%N) hw6.CHUNK_SIZE hw6.OVERLAP
  = Ok [800; 700; 100].
Proof. vm_compute. reflexivity. Qed.

(** C2, as stated, fails: with [chunk_size = 2] and [overlap = 3] the call
    returns the empty list and raises nothing; with [overlap = chunk_size = 2]
    it is [range] that raises, and what it raises is [ValueError]. *)
Lemma overlap_error_counterexample :
  2 ≤ 3 ∧
  hw6.semantic_chunk (lit "abc") 2 3 = Ok [] ∧
  (¬ ∃ e, hw6.semantic_chunk (lit "abc") 2 3 = Raise e) ∧
  hw6.semantic_chunk (lit "abc") 2 2 = Raise ValueError.
Proof.
  split_and!; [lia|vm_compute; reflexivity| |vm_compute; reflexivity].
  intros [e He]. vm_compute in He. discriminate.
Qed.

(** C2 (amended): with [overlap = chunk_size] the call raises [ValueError]
    (the zero step of [range]) and no slice is taken; with
    [overlap > chunk_size] it raises nothing and returns the empty list. *)
Theorem overlap_not_below_chunk_size (text : str) (chunk_size overlap : Z) :
  chunk_size ≤ overlap →
  hw6.semantic_chunk text chunk_size overlap
  = if decide (overlap = chunk_size) then Raise ValueError else Ok [].
Proof.
  intros Hle. unfold hw6.semantic_chunk.
  destruct (decide (overlap = chunk_size)) as [->|Hne].
  - by rewrite Z.sub_diag, py_range_zero_step.
  - rewrite py_range_neg_step by (pose proof (len_nonneg text); lia). done.
Qed.

(** The amended C2 at the text ["abc"] with [chunk_size = 2], [overlap = 3]. *)
Lemma overlap_not_below_chunk_size_witness :
  2 ≤ 3 ∧
  hw6.semantic_chunk (lit "abc") 2 3
  = if decide (3 = 2) then Raise ValueError else Ok [].
Proof. split; [lia|]. apply (overlap_not_below_chunk_size (lit "abc") 2 3). lia. Defined.

(** C9: with a positive stride the chunks are the slices
    [text[j*stride : j*stride + chunk_size]] of strictly increasing window
    numbers [j], each chunk has characters left after trimming, and the
    chunker of the other script returns the same list. *)
Theorem chunks_are_ordered_windows (text : str) (chunk_size overlap : Z) :
  0 < chunk_size - overlap →
  ∃ js : list nat,
    hw6.semantic_chunk text chunk_size overlap
    = Ok ((λ j : nat,
             py_slice text (Z.of_nat j * (chunk_size - overlap))
                           (Z.of_nat j * (chunk_size - overlap) + chunk_size)) <$> js) ∧
    StronglySorted Nat.lt js ∧
    Forall (λ j : nat,
              strip (py_slice text (Z.of_nat j * (chunk_size - overlap))
                                   (Z.of_nat j * (chunk_size - overlap) + chunk_size)) ≠ []) js ∧
    hw7.semantic_chunk text chunk_size overlap = hw6.semantic_chunk text chunk_size overlap.
Proof.
  intros Hstride.
  exists (retained_windows text chunk_size (chunk_size - overlap)). split_and!.
  - rewrite semantic_chunk_offsets, chunk_offsets_pos_stride by done. simpl.
    by rewrite <- list_fmap_compose.
  - apply retained_windows_sorted.
  - rewrite Forall_forall. intros j [_ Hj]%retained_windows_spec; [|done].
    by apply retained_nonblank in Hj.
  - reflexivity.
Qed.

(** C9 at the text ["a b"] with [chunk_size = 1], [overlap = 0]. *)
Lemma chunks_are_ordered_windows_witness :
  ∃ js : list nat,
    hw6.semantic_chunk (lit "a b") 1 0
    = Ok ((λ j : nat, py_slice (lit "a b") (Z.of_nat j * (1 - 0))
                                           (Z.of_nat j * (1 - 0) + 1)) <$> js) ∧
    StronglySorted Nat.lt js ∧
    Forall (λ j : nat,
              strip (py_slice (lit "a b") (Z.of_nat j * (1 - 0))
                                          (Z.of_nat j * (1 - 0) + 1)) ≠ []) js ∧
    hw7.semantic_chunk (lit "a b") 1 0 = hw6.semantic_chunk (lit "a b") 1 0.
Proof. apply (chunks_are_ordered_windows (lit "a b") 1 0). lia. Defined.

(** ** Embedding batches *)

Lemma for_each_fmap {A B C} (body : C → B → result C) (f : A → B) (acc : C) (l : list A) :
  for_each body acc (f <$> l) = for_each (λ acc x, body acc (f x)) acc l.
Proof.
  revert acc. induction l as [|x l IH]; intros acc; [done|]. simpl.
  destruct (body acc (f x)); simpl; [apply IH|done].
Qed.

Lemma mapM_ok {A B} (f : A → result B) (g : A → B) (l : list A) :
  (∀ x, x ∈ l → f x = Ok (g x)) → mapM f l = Ok (g <$> l).
Proof.
  induction l as [|x l IH]; intros Hf; [done|]. simpl.
  rewrite Hf by left. simpl. rewrite IH; [done|].
  intros y Hy. apply Hf. by right.
Qed.

Lemma py_slice_take_drop {A} (l : list A) (i n : nat) :
  (i ≤ length l)%nat →
  py_slice l (Z.of_nat i) (Z.of_nat i + Z.of_nat n) = take n (drop i l).
Proof.
  intros Hi. unfold py_slice, slice_bound, len.
  destruct (Z.ltb_spec (Z.of_nat i) 0); [lia|].
  destruct (Z.ltb_spec (Z.of_nat i + Z.of_nat n) 0); [lia|].
  rewrite (Z.min_l (Z.of_nat i)) by lia. rewrite Nat2Z.id.
  destruct (Z.min_spec (Z.of_nat i + Z.of_nat n) (Z.of_nat (length l))) as [[? ->]|[? ->]].
  - f_equal. lia.
  - rewrite !take_ge; [done|rewrite length_drop; lia..].
Qed.

Lemma concat_take_drop {A} (l : list A) (size n : nat) :
  concat ((λ j : nat, take size (drop (j * size) l)) <$> seq 0 n) = take (n * size) l.
Proof.
  induction n as [|n IH]; [by rewrite take_0|].
  rewrite seq_S, fmap_app, concat_app, IH. simpl. rewrite app_nil_r.
  rewrite take_take_drop. f_equal. lia.
Qed.

Lemma batches_take_drop (chunks : list str) :
  batches chunks
  = (λ j : nat, take 100 (drop (j * 100) chunks)) <$> seq 0 (range_len 0 (len chunks) 100).
Proof.
  unfold batches. apply list_fmap_ext. intros i j Hj.
  apply lookup_seq in Hj as [Heq Hj]. simpl in Heq. subst i.
  apply range_len_pos_lt in Hj; [|lia]. unfold len in Hj.
  replace (Z.of_nat j * 100) with (Z.of_nat (j * 100)) by lia.
  apply (py_slice_take_drop chunks (j * 100) 100). lia.
Qed.

(** The batches are consecutive: glued together they give the chunks back. *)
Lemma concat_batches (chunks : list str) : concat (batches chunks) = chunks.
Proof.
  rewrite batches_take_drop, concat_take_drop. apply take_ge.
  destruct (decide (range_len 0 (len chunks) 100 * 100 < length chunks)%nat) as [Hlt|]; [|lia].
  exfalso.
  assert (range_len 0 (len chunks) 100 < range_len 0 (len chunks) 100)%nat; [|lia].
  apply range_len_pos_lt; [lia|]. unfold len in *. lia.
Qed.

(** Every batch holds between 1 and 100 chunks. *)
Lemma batches_bounded (chunks : list str) :
  Forall (λ batch, (1 ≤ length batch ≤ 100)%nat) (batches chunks).
Proof.
  rewrite batches_take_drop, Forall_fmap, Forall_forall.
  intros j Hj%elem_of_seq. simpl.
  destruct Hj as [_ Hj]. apply range_len_pos_lt in Hj; [|lia]. unfold len in Hj.
  rewrite length_take, length_drop. lia.
Qed.

Section EmbeddingProperties.
Context {num : Type} {client : Client num}.

(** The loop of [compute_embeddings] is a loop over [batches]. *)
Lemma compute_embeddings_batches (chunks : list str) :
  hw6.compute_embeddings chunks
  = for_each (λ embeddings batch,
                response ← embeddings_create hw6.EMBEDDING_MODEL (Many batch);
                Ok (embeddings ++ response))
             [] (batches chunks).
Proof.
  unfold hw6.compute_embeddings, batches.
  rewrite py_range_pos_step by lia. simpl.
  by rewrite !for_each_fmap.
Qed.

Lemma embed_ok (e : str → str → vector num) (text : str) :
  order_preserving e → hw6.embed text = Ok (e hw6.EMBEDDING_MODEL text).
Proof. intros [Hone _]. unfold hw6.embed. by rewrite Hone. Qed.

Lemma batch_loop_ok (e : str → str → vector num) (bs : list (list str))
    (acc : list (vector num)) :
  order_preserving e →
  Forall (λ batch, (1 ≤ length batch ≤ 100)%nat) bs →
  for_each (λ embeddings batch,
              response ← embeddings_create hw6.EMBEDDING_MODEL (Many batch);
              Ok (embeddings ++ response))
           acc bs
  = Ok (acc ++ (e hw6.EMBEDDING_MODEL <$> concat bs)).
Proof.
  intros [_ Hmany] Hbs. revert acc.
  induction Hbs as [|b bs Hb _ IH]; intros acc; simpl.
  - by rewrite app_nil_r.
  - rewrite Hmany by done. simpl. rewrite IH, fmap_app. by rewrite <- app_assoc.
Qed.

(** C8: when the embedding service is a pure, order-preserving function [e]
    of the model and the text, [compute_embeddings], which submits the
    consecutive [batches] of 1 to 100 chunks, returns the vector of every
    chunk in the order of the chunks, which is what embedding the chunks
    one by one with [embed] returns. *)
Theorem compute_embeddings_batch_independent (e : str → str → vector num)
    (chunks : list str) :
  order_preserving e →
  hw6.compute_embeddings chunks = Ok (e hw6.EMBEDDING_MODEL <$> chunks) ∧
  hw6.compute_embeddings chunks = mapM hw6.embed chunks ∧
  (∀ vectors, hw6.compute_embeddings chunks = Ok vectors →
     length vectors = length chunks) ∧
  hw6.compute_embeddings chunks
  = for_each (λ embeddings batch,
                response ← embeddings_create hw6.EMBEDDING_MODEL (Many batch);
                Ok (embeddings ++ response))
             [] (batches chunks) ∧
  concat (batches chunks) = chunks ∧
  Forall (λ batch, (1 ≤ length batch ≤ 100)%nat) (batches chunks).
Proof.
  intros He.
  assert (hw6.compute_embeddings chunks = Ok (e hw6.EMBEDDING_MODEL <$> chunks)) as Hall.
  { rewrite compute_embeddings_batches, (batch_loop_ok e) by auto using batches_bounded.
    by rewrite concat_batches. }
  split_and!; [done| | |apply compute_embeddings_batches|apply concat_batches
              |apply batches_bounded].
  - rewrite Hall. symmetry. apply mapM_ok. intros text _. by apply embed_ok.
  - rewrite Hall. intros vectors [= <-]. by rewrite length_fmap.
Qed.
End EmbeddingProperties.

(** C8 at 101 chunks, which take two batches, with the service
    [length_client]. *)
Lemma compute_embeddings_batch_independent_witness :
  let chunks := replicate 101 (lit "ab") in
  let e := λ (_ : str) (text : str), [len text] in
  hw6.compute_embeddings (client:=length_client) chunks = Ok (e hw6.EMBEDDING_MODEL <$> chunks) ∧
  hw6.compute_embeddings (client:=length_client) chunks
  = mapM (hw6.embed (client:=length_client)) chunks ∧
  (∀ vectors, hw6.compute_embeddings (client:=length_client) chunks = Ok vectors →
     length vectors = length chunks) ∧
  hw6.compute_embeddings (client:=length_client) chunks
  = for_each (λ embeddings batch,
                response ← embeddings_create (Client:=length_client)
                             hw6.EMBEDDING_MODEL (Many batch);
                Ok (embeddings ++ response))
             [] (batches chunks) ∧
  concat (batches chunks) = chunks ∧
  Forall (λ batch, (1 ≤ length batch ≤ 100)%nat) (batches chunks).
Proof.
  apply (compute_embeddings_batch_independent (client:=length_client)).
  split; intros; reflexivity.
Defined.

(** ** Knowledge store *)

Lemma of_chunks_inj {num} (c1 c2 : list str) :
  of_chunks (num:=num) c1 = of_chunks c2 → c1 = c2.
Proof.
  unfold of_chunks. intros [= H]. revert c2 H.
  induction c1 as [|x c1 IH]; intros [|y c2] [=]; f_equal; auto.
Qed.

Lemma of_embeddings_inj {num} (e1 e2 : list (vector num)) :
  of_embeddings e1 = of_embeddings e2 → e1 = e2.
Proof.
  assert (∀ v1 v2 : vector num, PFloat <$> v1 = PFloat <$> v2 → v1 = v2) as Hvec.
  { induction v1 as [|x v1 IH]; intros [|y v2] [=]; f_equal; auto. }
  unfold of_embeddings. intros [= H]. revert e2 H.
  induction e1 as [|x e1 IH]; intros [|y e2] [=]; f_equal; auto.
Qed.

Lemma file_names_agree : hw6.OUTPUT_FILE = hw7.KNOWLEDGE_BASE_FILE.
Proof. reflexivity. Qed.

Lemma save_knowledge_base_same {num} (chunks : list str) (embeddings : list (vector num))
    (fs : filesystem num) :
  hw7.save_knowledge_base chunks embeddings fs
  = hw6.save_knowledge_base chunks embeddings hw6.OUTPUT_FILE fs.
Proof. reflexivity. Qed.

Ltac lit_neq := let H := fresh in intros H; vm_compute in H; discriminate H.

Lemma load_saved_file {num} (chunks : list str) (embeddings : list (vector num))
    (fs : filesystem num) :
  hw7.load_knowledge_base (hw6.save_knowledge_base chunks embeddings hw6.OUTPUT_FILE fs)
  = Ok (of_chunks chunks, of_embeddings embeddings).
Proof.
  unfold hw7.load_knowledge_base, hw6.save_knowledge_base, open_r.
  rewrite file_names_agree, lookup_insert_eq. simpl.
  rewrite lookup_insert_eq. simpl.
  rewrite lookup_insert_ne by lit_neq. rewrite lookup_insert_eq. done.
Qed.

(** *** Strs that are read back as they were written *)

Lemma no_surrogate_pair_tail (c : char) (s : str) :
  no_surrogate_pair (c :: s) → no_surrogate_pair s.
Proof. intros Hs i hi lo Hi Hlo. by apply (Hs (S i) hi lo). Qed.

Lemma reread_str_cons (c lo : char) (rest : str) :
  reread_str (c :: lo :: rest)
  = if is_high_surrogate c && is_low_surrogate lo
    then join_surrogates c lo :: reread_str rest
    else c :: reread_str (lo :: rest).
Proof. reflexivity. Qed.

Lemma reread_str_id (s : str) : no_surrogate_pair s → reread_str s = s.
Proof.
  induction s as [|c s IH]; intros Hs; [done|].
  destruct s as [|lo rest]; [done|].
  rewrite reread_str_cons, (Hs 0%nat c lo) by done.
  f_equal. apply IH. by eapply no_surrogate_pair_tail.
Qed.

Lemma reread_str_length (s : str) : (length (reread_str s) ≤ length s)%nat.
Proof.
  enough (∀ (n : nat) (s : str), (length s ≤ n)%nat →
            (length (reread_str s) ≤ length s)%nat) as H by by apply (H (length s)).
  clear s. induction n as [|n IH]; intros [|c [|lo rest]] Hn; simpl in Hn; try done; [lia|].
  rewrite reread_str_cons. destruct (_ && _); simpl.
  - pose proof (IH rest). lia.
  - pose proof (IH (lo :: rest)). simpl in *. lia.
Qed.

Lemma reread_str_shorter (s : str) (i : nat) (hi lo : char) :
  s !! i = Some hi → s !! S i = Some lo →
  is_high_surrogate hi && is_low_surrogate lo = true →
  (length (reread_str s) < length s)%nat.
Proof.
  revert i. induction s as [|c s IH]; intros i Hi Hlo Hpair; [done|].
  destruct s as [|lo' rest]; [done|].
  rewrite reread_str_cons. destruct (is_high_surrogate c && is_low_surrogate lo') eqn:Hc.
  - pose proof (reread_str_length rest). simpl. lia.
  - destruct i as [|i]; [simpl in *; congruence|].
    pose proof (IH i Hi Hlo Hpair). simpl in *. lia.
Qed.

(** A str is read back as it was written exactly when it holds no
    surrogate pair. *)
Lemma reread_str_fixed (s : str) : reread_str s = s ↔ no_surrogate_pair s.
Proof.
  split; [|apply reread_str_id].
  intros Hs i hi lo Hi Hlo.
  destruct (is_high_surrogate hi && is_low_surrogate lo) eqn:Hpair; [|done].
  pose proof (reread_str_shorter s i hi lo Hi Hlo Hpair) as Hlt.
  rewrite Hs in Hlt. lia.
Qed.

Lemma fmap_fixed {A} (f : A → A) (l : list A) :
  f <$> l = l ↔ Forall (λ x, f x = x) l.
Proof.
  induction l as [|x l IH]; [by split; [constructor|]|].
  rewrite fmap_cons, Forall_cons, <- IH. split; [by intros [= ? ?]|by intros [-> ->]].
Qed.

Lemma reread_of_chunks {num} (chunks : list str) :
  reread (num:=num) (of_chunks chunks) = of_chunks (reread_str <$> chunks).
Proof.
  unfold of_chunks. change (PList (num:=num) (reread <$> (PStr <$> chunks))
                            = PList (PStr <$> (reread_str <$> chunks))).
  by rewrite <- !list_fmap_compose.
Qed.

Lemma reread_of_embeddings {num} (embeddings : list (vector num)) :
  reread (of_embeddings embeddings) = of_embeddings embeddings.
Proof.
  unfold of_embeddings.
  change (PList (reread <$> ((λ v : vector num, PList (PFloat <$> v)) <$> embeddings))
          = PList ((λ v : vector num, PList (PFloat <$> v)) <$> embeddings)).
  rewrite <- list_fmap_compose. f_equal. apply list_fmap_ext. intros _ v _. simpl.
  f_equal. rewrite <- list_fmap_compose. by apply list_fmap_ext.
Qed.

(** The keys of the stored document are read back as they were written. *)
Lemma reread_document_keys {num} (a b c : pyval num) :
  kmap (M2:=gmap str) reread_str
    (<[lit "chunks" := a]> (<[lit "embeddings" := b]> (<[lit "metadata" := c]> ∅)))
  = <[lit "chunks" := a]> (<[lit "embeddings" := b]> (<[lit "metadata" := c]> ∅)).
Proof. vm_compute. reflexivity. Qed.

Lemma reread_metadata_keys {num} (a b c d : pyval num) :
  kmap (M2:=gmap str) reread_str
    (<[lit "chunk_size" := a]> (<[lit "overlap" := b]>
       (<[lit "embedding_model" := c]> (<[lit "num_chunks" := d]> ∅))))
  = <[lit "chunk_size" := a]> (<[lit "overlap" := b]>
       (<[lit "embedding_model" := c]> (<[lit "num_chunks" := d]> ∅))).
Proof. vm_compute. reflexivity. Qed.

Lemma reread_dict {num} (d : gmap str (pyval num)) :
  reread (PDict d) = PDict (kmap reread_str (reread <$> d)).
Proof. reflexivity. Qed.

(** The file that is written for [chunks] denotes the document of the
    chunks as they are read back. *)
Lemma written_hw6_save {num} (chunks : list str) (embeddings : list (vector num))
    (filename : str) (fs : filesystem num) :
  written.hw6_save_knowledge_base chunks embeddings filename fs
  = hw6.save_knowledge_base (reread_str <$> chunks) embeddings filename fs.
Proof.
  unfold written.hw6_save_knowledge_base, hw6.save_knowledge_base, json_dump.
  cbv zeta. do 2 f_equal.
  rewrite reread_dict, !fmap_insert, fmap_empty.
  rewrite reread_of_chunks, reread_of_embeddings.
  rewrite reread_dict, !fmap_insert, fmap_empty.
  rewrite reread_metadata_keys, reread_document_keys.
  unfold len. rewrite length_fmap.
  change (reread (PInt hw6.CHUNK_SIZE)) with (PInt (num:=num) hw6.CHUNK_SIZE).
  change (reread (PInt hw6.OVERLAP)) with (PInt (num:=num) hw6.OVERLAP).
  change (reread (PInt (Z.of_nat (length chunks))))
    with (PInt (num:=num) (Z.of_nat (length chunks))).
  assert (reread (PStr (num:=num) hw6.EMBEDDING_MODEL) = PStr hw6.EMBEDDING_MODEL) as ->
    by (vm_compute; reflexivity).
  reflexivity.
Qed.

Lemma written_hw7_save {num} (chunks : list str) (embeddings : list (vector num))
    (fs : filesystem num) :
  written.hw7_save_knowledge_base chunks embeddings fs
  = written.hw6_save_knowledge_base chunks embeddings hw6.OUTPUT_FILE fs.
Proof. reflexivity. Qed.





(** ** Sorting *)

Lemma insert_stable_Permutation {A} (before : A → A → bool) (x : A) (l : list A) :
  insert_stable before x l ≡ₚ x :: l.
Proof.
  induction l as [|y l IH]; simpl; [done|].
  destruct (before y x); [|done]. rewrite IH. apply Permutation_swap.
Qed.

Lemma list_sort_Permutation {A K} (lt : K → K → bool) (key : A → K) (reverse : bool)
    (l : list A) :
  list_sort lt key reverse l ≡ₚ l.
Proof.
  unfold list_sort. induction l as [|x l IH]; simpl; [done|].
  by rewrite insert_stable_Permutation, IH.
Qed.

Lemma foldl_snoc_fmap {A B} (f : A → B) (l : list A) (acc : list B) :
  foldl (λ acc x, acc ++ [f x]) acc l = acc ++ (f <$> l).
Proof.
  revert acc. induction l as [|x l IH]; intros acc; simpl.
  - by rewrite app_nil_r.
  - by rewrite IH, <- app_assoc.
Qed.

Lemma elem_of_enumerate {A} (l : list A) (p : Z * A) :
  p ∈ enumerate l ↔ ∃ j : nat, p.1 = Z.of_nat j ∧ l !! j = Some p.2.
Proof.
  unfold enumerate. rewrite list_elem_of_lookup. split.
  - intros [j Hj]. rewrite list_lookup_imap in Hj.
    destruct (l !! j) as [x|] eqn:Hx; simplify_eq/=. eauto.
  - intros (j & H1 & H2). exists j. rewrite list_lookup_imap, H2. simpl.
    destruct p; simpl in *; congruence.
Qed.

Lemma enumerate_index_sorted {A} (l : list A) :
  StronglySorted (λ a b : Z * A, a.1 < b.1) (enumerate l).
Proof.
  unfold enumerate.
  enough (∀ start : nat,
            StronglySorted (λ a b : Z * A, a.1 < b.1)
              (imap (λ i x, (Z.of_nat (start + i), x)) l)) as H by apply (H 0%nat).
  induction l as [|x l IH]; intros start; [constructor|].
  rewrite imap_cons. constructor.
  - erewrite imap_ext; [apply (IH (S start))|]. intros i y _. simpl. do 2 f_equal. lia.
  - rewrite Forall_forall. intros p [j Hj]%list_elem_of_lookup.
    rewrite list_lookup_imap in Hj. destruct (l !! j); simplify_eq/=. lia.
Qed.

Lemma fst_enumerate {A} (l : list A) :
  (enumerate l).*1 = Z.of_nat <$> seq 0 (length l).
Proof.
  unfold enumerate. apply list_eq. intros i.
  rewrite !list_lookup_fmap, list_lookup_imap.
  destruct (l !! i) as [x|] eqn:Hx; simpl.
  - rewrite lookup_seq_lt by (by eapply lookup_lt_Some). done.
  - rewrite lookup_seq_ge by (by apply lookup_ge_None). done.
Qed.

(** [l[:k]] is a prefix of [l], the first [k] elements when [k >= 0]. *)
Lemma py_slice_prefix {A} (l : list A) (k : Z) :
  py_slice l 0 k = take (Z.to_nat (slice_bound (len l) k)) l.
Proof.
  unfold py_slice. pose proof (len_nonneg l).
  replace (slice_bound (len l) 0) with 0 by (unfold slice_bound; simpl; lia).
  by rewrite Z.sub_0_r.
Qed.

Lemma py_slice_prefix_nonneg {A} (l : list A) (k : Z) :
  0 ≤ k → py_slice l 0 k = take (Z.to_nat k) l.
Proof.
  intros Hk. rewrite py_slice_prefix. unfold slice_bound, len.
  destruct (Z.ltb_spec k 0); [lia|].
  destruct (Z.min_spec k (Z.of_nat (length l))) as [[? ->]|[? ->]]; [done|].
  rewrite Nat2Z.id, !take_ge; [done|lia..].
Qed.

Lemma py_index_nat {A} (l : list A) (j : nat) (x : A) :
  l !! j = Some x → py_index l (Z.of_nat j) = Ok x.
Proof.
  intros Hj. unfold py_index.
  destruct (Z.ltb_spec (Z.of_nat j) 0); [lia|].
  destruct (Z.ltb_spec (Z.of_nat j) 0); [lia|].
  by rewrite Nat2Z.id, Hj.
Qed.

Lemma mapM_cons {A B} (f : A → result B) (x : A) (l : list A) :
  mapM f (x :: l) = (y ← f x; ys ← mapM f l; Ok (y :: ys)).
Proof. reflexivity. Qed.

Lemma mapM_fmap_Forall2 {A B C} (f : B → result C) (g : A → B) (R : A → C → Prop)
    (l : list A) :
  Forall (λ x, ∃ y, f (g x) = Ok y ∧ R x y) l →
  ∃ ys, mapM f (g <$> l) = Ok ys ∧ Forall2 R l ys.
Proof.
  induction 1 as [|x l (y & Hy & HR) _ (ys & Hys & HRs)].
  - exists []. by split; [|constructor].
  - exists (y :: ys). rewrite fmap_cons, mapM_cons, Hy. simpl. rewrite Hys.
    by split; [|constructor].
Qed.

(** Python's zip stops at the shorter vector: the score only reads the
    common prefix of the two vectors. *)
Lemma dot_product_common_prefix {num} {number : Number num} (v1 v2 : vector num) :
  hw7.dot_product v1 v2
  = hw7.dot_product (take (length v2) v1) (take (length v1) v2).
Proof. unfold hw7.dot_product. by rewrite zip_with_take_both. Qed.

(** ** Retriever *)

Section RetrieverProperties.
Context {num : Type} {number : Number num}.
Implicit Types (q : vector num) (embs : list (vector num)) (chunks : list str).
Implicit Types (keys : list num) (x y : Z * num) (s l : list (Z * num)).

Lemma ranked_before_not_lt keys x y :
  strict_weak_on py_lt keys → x.2 ∈ keys → y.2 ∈ keys →
  ranked_before x y → py_lt x.2 y.2 = false.
Proof.
  intros [Hasym _] Hx Hy [Hlt|(? & _)]; [|done]. by apply Hasym.
Qed.

Lemma insert_ranked keys x s :
  strict_weak_on py_lt keys → x.2 ∈ keys →
  Forall (λ y, y.2 ∈ keys ∧ x.1 < y.1) s →
  StronglySorted ranked_before s →
  StronglySorted ranked_before (insert_stable (λ a b : Z * num, py_lt b.2 a.2) x s).
Proof.
  intros Hswo Hx Hs Hsorted.
  induction Hsorted as [|y s Hsorted IH Hy]; simpl.
  - repeat constructor.
  - apply Forall_cons in Hs as [[Hyk Hxy] Hs].
    destruct (py_lt x.2 y.2) eqn:Hlt.
    + constructor; [by apply IH|].
      rewrite Forall_forall. intros z Hz.
      rewrite insert_stable_Permutation in Hz.
      apply elem_of_cons in Hz as [->|Hz].
      * by left.
      * rewrite Forall_forall in Hy. by apply Hy.
    + constructor; [by constructor|].
      assert (∀ z, z ∈ y :: s → py_lt x.2 z.2 = false ∧ x.1 < z.1) as Hafter.
      { intros z [->|Hz]%elem_of_cons; [done|].
        rewrite Forall_forall in Hs, Hy. destruct (Hs z Hz) as [Hzk Hxz].
        split; [|done]. destruct Hswo as [Hasym Htrans].
        apply (Htrans x.2 y.2 z.2); try done.
        apply (ranked_before_not_lt keys); [by split|done..|by apply Hy]. }
      rewrite Forall_forall. intros z Hz. destruct (Hafter z Hz) as [Hxz Hidx].
      destruct (py_lt z.2 x.2) eqn:Hzx; [by left|by right].
Qed.

Lemma list_sort_ranked keys l :
  strict_weak_on py_lt keys → Forall (λ y, y.2 ∈ keys) l →
  StronglySorted (λ a b : Z * num, a.1 < b.1) l →
  StronglySorted ranked_before (list_sort py_lt snd true l).
Proof.
  intros Hswo Hl Hsorted. unfold list_sort.
  induction Hsorted as [|x l Hsorted IH Hx]; simpl; [constructor|].
  apply Forall_cons in Hl as [Hxk Hl].
  apply (insert_ranked keys); [done..| |by apply IH].
  rewrite Forall_forall in Hl, Hx |- *. intros y Hy.
  apply (elem_of_Permutation_proper y _ _ (list_sort_Permutation py_lt snd true l)) in Hy.
  auto.
Qed.

Lemma ranking_Permutation q embs :
  ranking q embs ≡ₚ enumerate (similarities q embs).
Proof. apply list_sort_Permutation. Qed.

Lemma ranking_sorted q embs :
  strict_weak_on py_lt (similarities q embs) →
  StronglySorted ranked_before (ranking q embs).
Proof.
  intros Hswo. apply (list_sort_ranked (similarities q embs)); [done| |].
  - rewrite Forall_forall. intros p (j & _ & Hj)%elem_of_enumerate.
    apply list_elem_of_lookup. eauto.
  - apply enumerate_index_sorted.
Qed.

Lemma length_ranking q embs : length (ranking q embs) = length embs.
Proof.
  rewrite ranking_Permutation. unfold enumerate, similarities.
  by rewrite length_imap, length_fmap.
Qed.

(** Retrieval over index-aligned chunks and embeddings raises nothing: it
    returns the chunk and the score of every pair of [ranking[:k]]. *)
Lemma retrieve_relevant_chunks_ok q embs chunks k :
  length chunks = length embs →
  ∃ retrieved,
    hw7.retrieve_relevant_chunks q embs chunks k
    = Ok (retrieved, (py_slice (ranking q embs) 0 k).*1) ∧
    Forall2 (λ (p : Z * num) (r : str * num),
               r.2 = p.2 ∧ ∃ j : nat, p.1 = Z.of_nat j ∧ chunks !! j = Some r.1 ∧
                 ∃ e, embs !! j = Some e ∧ r.2 = hw7.dot_product q e)
            (py_slice (ranking q embs) 0 k) retrieved.
Proof.
  intros Hlen. unfold hw7.retrieve_relevant_chunks.
  rewrite (foldl_snoc_fmap (hw7.dot_product q) embs []). simpl.
  change (list_sort py_lt snd true (enumerate (hw7.dot_product q <$> embs)))
    with (ranking q embs).
  edestruct (mapM_fmap_Forall2
    (λ i, c ← py_index chunks i; s ← py_index (hw7.dot_product q <$> embs) i; Ok (c, s))
    fst
    (λ (p : Z * num) (r : str * num),
       r.2 = p.2 ∧ ∃ j : nat, p.1 = Z.of_nat j ∧ chunks !! j = Some r.1 ∧
         ∃ e, embs !! j = Some e ∧ r.2 = hw7.dot_product q e)
    (py_slice (ranking q embs) 0 k)) as (retrieved & Hret & Hrel).
  - rewrite Forall_forall. intros p Hp.
    rewrite py_slice_prefix in Hp. apply subseteq_take in Hp.
    rewrite ranking_Permutation in Hp.
    apply elem_of_enumerate in Hp as (j & Hidx & Hj). unfold similarities in Hj.
    rewrite list_lookup_fmap in Hj.
    destruct (embs !! j) as [e|] eqn:He; [|done]. injection Hj as Hj.
    destruct (lookup_lt_is_Some_2 chunks j) as [c Hc].
    { rewrite Hlen. by eapply lookup_lt_Some. }
    exists (c, p.2). split.
    + rewrite Hidx, (py_index_nat chunks j c Hc). simpl.
      rewrite (py_index_nat _ j p.2); [done|].
      rewrite list_lookup_fmap, He. simpl. by rewrite Hj.
    + simpl. split; [done|]. exists j. split_and!; [done..|]. by exists e.
  - exists retrieved. split; [|done].
    fold (fmap (M:=list) (@fst Z num)). by rewrite Hret.
Qed.

(** C3 (amended): for index-aligned chunks and embeddings, [k >= 1] and scores
    that [<] orders properly, as it does when none of them is NaN, retrieval
    returns [min(k, n)] pairs: the first ones
    of the list [full] of all (index, score) pairs ranked by descending score
    with equal scores in ascending index order, each with the chunk of its
    index. With [k >= n] these are all chunks, with [n = 0] none. *)
Theorem retrieve_top_k q embs chunks k :
  length chunks = length embs → 1 ≤ k →
  strict_weak_on py_lt (similarities q embs) →
  ∃ retrieved topk full,
    hw7.retrieve_relevant_chunks q embs chunks k = Ok (retrieved, topk) ∧
    length retrieved = Nat.min (Z.to_nat k) (length chunks) ∧
    full ≡ₚ enumerate (similarities q embs) ∧
    StronglySorted ranked_before full ∧
    topk = (take (Z.to_nat k) full).*1 ∧
    Forall2 (λ (p : Z * num) (r : str * num),
               r.2 = p.2 ∧ ∃ j : nat, p.1 = Z.of_nat j ∧ chunks !! j = Some r.1 ∧
                 ∃ e, embs !! j = Some e ∧ r.2 = hw7.dot_product q e)
            (take (Z.to_nat k) full) retrieved ∧
    (len chunks ≤ k → topk ≡ₚ Z.of_nat <$> seq 0 (length chunks)) ∧
    (chunks = [] → retrieved = []).
Proof.
  intros Hlen Hk Hswo.
  destruct (retrieve_relevant_chunks_ok q embs chunks k Hlen) as (retrieved & Hret & Hrel).
  rewrite py_slice_prefix_nonneg in Hret, Hrel by lia.
  assert (length retrieved = Nat.min (Z.to_nat k) (length chunks)) as Hlength.
  { rewrite <- (Forall2_length _ _ _ Hrel), length_take, length_ranking. lia. }
  exists retrieved, (take (Z.to_nat k) (ranking q embs)).*1, (ranking q embs).
  split_and!; [done|done|apply ranking_Permutation|by apply ranking_sorted|done|done| |].
  - intros Hall. rewrite take_ge by (rewrite length_ranking; unfold len in Hall; lia).
    rewrite ranking_Permutation, fst_enumerate. unfold similarities.
    by rewrite length_fmap, Hlen.
  - intros ->. destruct retrieved; [done|]. simpl in Hlength. lia.
Qed.

End RetrieverProperties.

(** The exact integers are properly ordered, whatever the keys. *)
Lemma Z_strict_weak (keys : list Z) : strict_weak_on (py_lt (num:=Z)) keys.
Proof.
  split; simpl.
  - intros a b _ _ H%Z.ltb_lt. apply Z.ltb_ge. lia.
  - intros a b c _ _ _ H1%Z.ltb_ge H2%Z.ltb_ge. apply Z.ltb_ge. lia.
Qed.

(** The scenario of three chunks with the embeddings (1,0), (0,1) and
    (0.7,0.7), scaled by ten, against the query (1,0) with [k = 2]. *)
Example retrieve_scenario :
  hw7.retrieve_relevant_chunks [10; 0] [[10; 0]; [0; 10]; [7; 7]]
    [lit "c0"; lit "c1"; lit "c2"] 2
  = Ok ([(lit "c0", 100); (lit "c2", 70)], [0; 2]).
Proof. vm_compute. reflexivity. Qed.

(** Equal scores keep the order of their indices. *)
Example retrieve_ties :
  hw7.retrieve_relevant_chunks [1] [[5]; [7]; [5]; [7]]
    [lit "c0"; lit "c1"; lit "c2"; lit "c3"] 10
  = Ok ([(lit "c1", 7); (lit "c3", 7); (lit "c0", 5); (lit "c2", 5)], [1; 3; 0; 2]).
Proof. vm_compute. reflexivity. Qed.

(** C3 at the scenario above. *)
Lemma retrieve_top_k_witness :
  let q : vector Z := [10; 0] in
  let embs : list (vector Z) := [[10; 0]; [0; 10]; [7; 7]] in
  let chunks := [lit "c0"; lit "c1"; lit "c2"] in
  ∃ retrieved topk full,
    hw7.retrieve_relevant_chunks q embs chunks 2 = Ok (retrieved, topk) ∧
    length retrieved = Nat.min (Z.to_nat 2) (length chunks) ∧
    full ≡ₚ enumerate (similarities q embs) ∧
    StronglySorted ranked_before full ∧
    topk = (take (Z.to_nat 2) full).*1 ∧
    Forall2 (λ (p : Z * Z) (r : str * Z),
               r.2 = p.2 ∧ ∃ j : nat, p.1 = Z.of_nat j ∧ chunks !! j = Some r.1 ∧
                 ∃ e, embs !! j = Some e ∧ r.2 = hw7.dot_product q e)
            (take (Z.to_nat 2) full) retrieved ∧
    (len chunks ≤ 2 → topk ≡ₚ Z.of_nat <$> seq 0 (length chunks)) ∧
    (chunks = [] → retrieved = []).
Proof.
  apply (retrieve_top_k (number:=Z_number)); [reflexivity|lia|apply Z_strict_weak].
Defined.

(** C3, as stated, fails: over the scores 1, NaN and 2 retrieval with
    [k = 1] returns chunk 0, whose score is 1, and leaves out chunk 2, whose
    score 2 is greater; with [k = 3] it returns the three chunks in the order
    of the scores 1, NaN, 2, which is no descending order: no comparison
    with NaN holds, so the three pairs stay where they are, under CPython's
    [list.sort] as here. On these scores [<] is not the order that the
    amended statement asks for. *)
Lemma nan_score_counterexample :
  let q : vector (option Z) := [Some 1] in
  let embs : list (vector (option Z)) := [[Some 1]; [None]; [Some 2]] in
  let chunks := [lit "c0"; lit "c1"; lit "c2"] in
  length chunks = length embs ∧
  similarities q embs = [Some 1; None; Some 2] ∧
  hw7.retrieve_relevant_chunks q embs chunks 1 = Ok ([(lit "c0", Some 1)], [0]) ∧
  hw7.retrieve_relevant_chunks q embs chunks 3
  = Ok ([(lit "c0", Some 1); (lit "c1", None); (lit "c2", Some 2)], [0; 1; 2]) ∧
  py_lt (Some 1) (Some 2) = true ∧
  ¬ strict_weak_on py_lt (similarities q embs).
Proof.
  cbv zeta. split_and!; [reflexivity|reflexivity|vm_compute; reflexivity
                        |vm_compute; reflexivity|reflexivity|].
  intros [_ Htrans].
  assert (py_lt (Some 1) (Some 2) = false) as Hlt; [|done].
  apply (Htrans (Some 1) None (Some 2)); try reflexivity.
  - change (Some 1 ∈ [Some 1; None; Some 2]). set_solver.
  - change (None ∈ [Some 1; None; Some 2]). set_solver.
  - change (Some 2 ∈ [Some 1; None; Some 2]). set_solver.
Qed.

(** ** Prompt assembler *)

Lemma context_loop (chunks : list str) (topk_indices : list Z) (start : nat)
    (context : list str) :
  for_each (λ context '(i, idx),
              chunk ← py_index chunks idx;
              Ok (context ++ [knowledge_block i chunk]))
           context (imap (λ (i : nat) idx, (Z.of_nat (start + i), idx)) topk_indices)
  = (texts ← mapM (py_index chunks) topk_indices;
     Ok (context ++ imap (λ (i : nat) text, knowledge_block (Z.of_nat (start + i)) text)
                         texts)).
Proof.
  revert start context. induction topk_indices as [|idx l IH]; intros start context.
  - simpl. by rewrite app_nil_r.
  - rewrite imap_cons, mapM_cons. simpl.
    destruct (py_index chunks idx) as [chunk|e]; simpl; [|done].
    erewrite (imap_ext _ (λ (i : nat) idx, (Z.of_nat (S start + i), idx)));
      [|intros; simpl; do 2 f_equal; lia].
    rewrite IH. destruct (mapM (py_index chunks) l) as [texts|e]; simpl; [|done].
    rewrite <- app_assoc. simpl. do 3 f_equal.
    apply imap_ext. intros i text _. unfold compose.
    by replace (S (start + i)) with (start + S i)%nat by lia.
Qed.

(** The prompt is [prompt_of] the chunks that the indices select, and the
    call raises what selecting them raises. *)
Lemma create_augmented_prompt_eq {num} (query : str) (retrieved_chunks : list (str * num))
    (topk_indices : list Z) (chunks : list str) :
  hw7.create_augmented_prompt query retrieved_chunks topk_indices chunks
  = (texts ← mapM (py_index chunks) topk_indices; Ok (prompt_of texts)).
Proof.
  unfold hw7.create_augmented_prompt, enumerate. cbv zeta.
  match goal with |- context [for_each ?body ?acc ?l] => set (loop := for_each body acc l) end.
  assert (loop = (texts ← mapM (py_index chunks) topk_indices;
                  Ok (imap (λ (i : nat) text, knowledge_block (Z.of_nat i) text) texts)))
    as -> by exact (context_loop chunks topk_indices 0 []).
  by destruct (mapM (py_index chunks) topk_indices).
Qed.

Lemma mapM_pair_fst {A B C} (f : A → result B) (g : A → result C) (l : list A)
    (rs : list (B * C)) :
  mapM (λ i, c ← f i; s ← g i; Ok (c, s)) l = Ok rs → mapM f l = Ok rs.*1.
Proof.
  revert rs. induction l as [|x l IH]; intros rs.
  - by intros [= <-].
  - rewrite !mapM_cons. destruct (f x) as [c|]; simpl; [|done].
    destruct (g x) as [s|]; simpl; [|done].
    destruct (mapM (λ i, c ← f i; s ← g i; Ok (c, s)) l) as [rs'|] eqn:Hrs; simpl; [|done].
    intros [= <-]. by rewrite (IH rs').
Qed.

(** C7, as stated, fails: the prompt for the query ["Q"] over the one
    retrieved chunk ["a"] does not end with the query, whose letter does not
    even occur in it. *)
Lemma prompt_query_counterexample :
  hw7.retrieve_relevant_chunks [1] [[1]] [lit "a"] 5 = Ok ([(lit "a", 1)], [0]) ∧
  ∃ prompt,
    hw7.create_augmented_prompt (lit "Q") [(lit "a", 1)] [0] [lit "a"] = Ok prompt ∧
    prompt = prompt_of [lit "a"] ∧
    (81%N ∉ prompt) ∧
    ¬ (lit "Q" `suffix_of` prompt).
Proof.
  split; [vm_compute; reflexivity|].
  exists (prompt_of [lit "a"]). split; [vm_compute; reflexivity|].
  assert (81%N ∉ prompt_of [lit "a"]) as Hnot.
  { apply (bool_decide_unpack _). vm_compute. exact I. }
  split_and!; [reflexivity|exact Hnot|].
  intros [front Hsuffix]. apply Hnot.
  rewrite Hsuffix. apply elem_of_app. right.
  change (lit "Q") with [81%N]. constructor.
Qed.

(** C7 (amended): the prompt built from a retrieval result is the fixed
    heading followed by one delimited block per retrieved chunk, in the order
    of the retrieval result; the block at position [i] carries the tag
    [document-i] and the text of the [i]-th retrieved chunk. The query is not
    part of the prompt. *)
Theorem prompt_of_retrieval {num} {number : Number num} (query : str)
    (query_embedding : vector num) (chunk_embeddings : list (vector num))
    (chunks : list str) (k : Z) (retrieved_chunks : list (str * num))
    (topk_indices : list Z) :
  hw7.retrieve_relevant_chunks query_embedding chunk_embeddings chunks k
  = Ok (retrieved_chunks, topk_indices) →
  hw7.create_augmented_prompt query retrieved_chunks topk_indices chunks
  = Ok (prompt_of retrieved_chunks.*1).
Proof.
  unfold hw7.retrieve_relevant_chunks.
  destruct (mapM _ _) as [rs|e] eqn:Hrs; simpl; [|done].
  intros [= <- <-]. rewrite create_augmented_prompt_eq.
  by rewrite (mapM_pair_fst _ _ _ _ Hrs).
Qed.

(** The amended C7 at the retrieval scenario. *)
Lemma prompt_of_retrieval_witness :
  hw7.create_augmented_prompt (lit "Q") [(lit "c0", 100); (lit "c2", 70)] [0; 2]
    [lit "c0"; lit "c1"; lit "c2"]
  = Ok (prompt_of [(lit "c0", 100); (lit "c2", 70)].*1).
Proof.
  apply (prompt_of_retrieval (number:=Z_number) (lit "Q") [10; 0]
           [[10; 0]; [0; 10]; [7; 7]] [lit "c0"; lit "c1"; lit "c2"] 2).
  vm_compute. reflexivity.
Defined.

(** C10: two calls with the same indices and the same chunks return the same
    prompt (or raise the same exception), whatever their queries and their
    retrieved pairs are: the prompt is [prompt_of] the chunks that the
    indices select. *)
Theorem prompt_independent_of_query {num1 num2 : Type} (query1 query2 : str)
    (retrieved_chunks1 : list (str * num1)) (retrieved_chunks2 : list (str * num2))
    (topk_indices : list Z) (chunks : list str) :
  hw7.create_augmented_prompt query1 retrieved_chunks1 topk_indices chunks
  = hw7.create_augmented_prompt query2 retrieved_chunks2 topk_indices chunks
  ∧ hw7.create_augmented_prompt query1 retrieved_chunks1 topk_indices chunks
    = (texts ← mapM (py_index chunks) topk_indices; Ok (prompt_of texts)).
Proof. by rewrite !create_augmented_prompt_eq. Qed.

(** ** In-place updates of the retriever *)

Section StoreProperties.
Context {num : Type} {number : Number num}.
Implicit Types (h : store num) (r : loc) (o : obj num).

Lemma unchanged_refl h : unchanged h h.
Proof. by intros r o. Qed.

Lemma unchanged_insert_fresh (h0 : store num) h r o :
  unchanged h0 h → h0 !! r = None → unchanged h0 (<[r := o]> h).
Proof.
  intros Hh Hr r' o' Hr'. rewrite lookup_insert_ne; [by apply Hh|].
  intros ->. congruence.
Qed.

Lemma keeps_ret {A} (h0 : store num) (a : A) (Q : A → Prop) : Q a → keeps h0 (mret a) Q.
Proof. intros HQ h Hh. split; [done|]. by intros a' [= <-]. Qed.

Lemma keeps_bind {A B} (h0 : store num) (m : M num A) (f : A → M num B) (Q : A → Prop) (Q' : B → Prop) :
  keeps h0 m Q → (∀ a, Q a → keeps h0 (f a) Q') → keeps h0 (m ≫= f) Q'.
Proof.
  intros Hm Hf h Hh. destruct (Hm h Hh) as [Hkept HQ].
  unfold mbind, M_bind. destruct (m h) as [[a|e] h1]; simpl in *.
  - by apply Hf; [apply HQ|].
  - by split.
Qed.

Lemma keeps_lift {A} (h0 : store num) (x : result A) : keeps h0 (lift x) (λ _, True).
Proof. by intros h Hh. Qed.

Lemma keeps_new (h0 : store num) o : keeps h0 (new o) (λ r, h0 !! r = None).
Proof.
  intros h Hh. unfold new. simpl.
  assert (h0 !! fresh (dom h) = None) as Hfresh.
  { destruct (h0 !! fresh (dom h)) as [o'|] eqn:Hr; [|done].
    apply Hh in Hr. destruct (is_fresh (dom h)). apply elem_of_dom. eauto. }
  split; [by apply unchanged_insert_fresh|]. by intros r [= <-].
Qed.

Lemma keeps_put (h0 : store num) r o : h0 !! r = None → keeps h0 (put r o) (λ _, True).
Proof. intros Hr h Hh. split; [by apply unchanged_insert_fresh|done]. Qed.

Lemma keeps_get_floats (h0 : store num) r : keeps h0 (get_floats r) (λ _, True).
Proof. by intros h Hh. Qed.
Lemma keeps_get_vectors (h0 : store num) r : keeps h0 (get_vectors r) (λ _, True).
Proof. by intros h Hh. Qed.
Lemma keeps_get_strs (h0 : store num) r : keeps h0 (get_strs r) (λ _, True).
Proof. by intros h Hh. Qed.
Lemma keeps_get_pairs (h0 : store num) r : keeps h0 (get_pairs r) (λ _, True).
Proof. by intros h Hh. Qed.
Lemma keeps_get_ints (h0 : store num) r : keeps h0 (get_ints r) (λ _, True).
Proof. by intros h Hh. Qed.

Lemma keeps_for_in {A} (h0 : store num) (l : list A) (body : A → M num unit) :
  (∀ x, keeps h0 (body x) (λ _, True)) → keeps h0 (for_in l body) (λ _, True).
Proof.
  intros Hbody. induction l as [|x l IH]; simpl.
  - by apply keeps_ret.
  - eapply keeps_bind; [apply Hbody|]. by intros _ _.
Qed.

Lemma keeps_mapM {A B} (h0 : store num) (f : A → M num B) (l : list A) :
  (∀ x, keeps h0 (f x) (λ _, True)) → keeps h0 (mapM f l) (λ _, True).
Proof.
  intros Hf. induction l as [|x l IH]; simpl.
  - by apply keeps_ret.
  - eapply keeps_bind; [apply Hf|]. intros y _.
    eapply keeps_bind; [apply IH|]. intros ys _. by apply keeps_ret.
Qed.

Ltac keeps_auto :=
  lazymatch goal with
  | |- keeps _ (mret _) _ => apply (keeps_ret _ _ (λ _, True)); exact I
  | |- keeps _ (_ ≫= _) _ =>
      eapply keeps_bind; [keeps_auto|intros ? ?; cbv beta in *; keeps_auto]
  | |- keeps _ (new _) _ => apply keeps_new
  | |- keeps _ (put _ _) _ => apply keeps_put; assumption
  | |- keeps _ (lift _) _ => apply keeps_lift
  | |- keeps _ (get_floats _) _ => apply keeps_get_floats
  | |- keeps _ (get_vectors _) _ => apply keeps_get_vectors
  | |- keeps _ (get_strs _) _ => apply keeps_get_strs
  | |- keeps _ (get_pairs _) _ => apply keeps_get_pairs
  | |- keeps _ (get_ints _) _ => apply keeps_get_ints
  | |- keeps _ (for_in _ _) _ => apply keeps_for_in; intros ?; keeps_auto
  | |- keeps _ (mapM _ _) _ => apply keeps_mapM; intros ?; keeps_auto
  end.

(** The retriever writes to lists it has created itself only: whatever its
    arguments are, and whether it returns or raises, every object that was
    in the store before the call is in it unchanged after the call. *)
Lemma retrieve_keeps_store (h0 : store num) (query_embedding chunk_embeddings chunks : loc)
    (k : Z) :
  keeps h0 (objects.retrieve_relevant_chunks query_embedding chunk_embeddings chunks k)
        (λ _, True).
Proof. unfold objects.retrieve_relevant_chunks, objects.dot_product. keeps_auto. Qed.

(** *** The two models of the retriever agree *)

Lemma bind_ok {A B} (m : M num A) (f : A → M num B) h a h' :
  m h = (Ok a, h') → (m ≫= f) h = f a h'.
Proof. intros Hm. unfold mbind, M_bind. by rewrite Hm. Qed.

Lemma bind_raise {A B} (m : M num A) (f : A → M num B) h e h' :
  m h = (Raise e, h') → (m ≫= f) h = (Raise e, h').
Proof. intros Hm. unfold mbind, M_bind. by rewrite Hm. Qed.

Lemma get_floats_run h r xs : h !! r = Some (Floats xs) → get_floats r h = (Ok xs, h).
Proof. intros Hr. unfold get_floats. by rewrite Hr. Qed.
Lemma get_vectors_run h r vs : h !! r = Some (Vectors vs) → get_vectors r h = (Ok vs, h).
Proof. intros Hr. unfold get_vectors. by rewrite Hr. Qed.
Lemma get_strs_run h r ss : h !! r = Some (Strs ss) → get_strs r h = (Ok ss, h).
Proof. intros Hr. unfold get_strs. by rewrite Hr. Qed.
Lemma get_pairs_run h r ps : h !! r = Some (Pairs ps) → get_pairs r h = (Ok ps, h).
Proof. intros Hr. unfold get_pairs. by rewrite Hr. Qed.
Lemma get_ints_run h r zs : h !! r = Some (Ints zs) → get_ints r h = (Ok zs, h).
Proof. intros Hr. unfold get_ints. by rewrite Hr. Qed.

Lemma lookup_insert_old h r r' o o' :
  h !! r = None → h !! r' = Some o' → <[r := o]> h !! r' = Some o'.
Proof. intros Hr Hr'. rewrite lookup_insert_ne; [done|]. intros ->. congruence. Qed.

Lemma fresh_lookup h : h !! fresh (dom h) = None.
Proof. apply not_elem_of_dom, is_fresh. Qed.

Lemma dot_product_run h (v1 v2 : loc) (xs ys : vector num) :
  h !! v1 = Some (Floats xs) → h !! v2 = Some (Floats ys) →
  objects.dot_product v1 v2 h = (Ok (hw7.dot_product xs ys), h).
Proof.
  intros H1 H2. unfold objects.dot_product.
  rewrite (bind_ok _ _ _ _ _ (get_floats_run _ _ _ H1)).
  by rewrite (bind_ok _ _ _ _ _ (get_floats_run _ _ _ H2)).
Qed.

(** The loop that fills [similarities], started with the scores [acc]. *)
Lemma similarities_loop h (qe sims : loc) (q : vector num) (vs : list loc)
    (embs : list (vector num)) (acc : list num) :
  h !! qe = Some (Floats q) → h !! sims = None →
  Forall2 (λ v e, h !! v = Some (Floats e)) vs embs →
  for_in vs (λ chunk_emb,
       similarity ← objects.dot_product qe chunk_emb;
       xs ← get_floats sims;
       put sims (Floats (xs ++ [similarity])))
    (<[sims := Floats acc]> h)
  = (Ok (), <[sims := Floats (acc ++ (hw7.dot_product q <$> embs))]> h).
Proof.
  intros Hq Hsims Hvs. revert acc.
  induction Hvs as [|v e vs embs Hv _ IH]; intros acc; simpl.
  - by rewrite app_nil_r.
  - assert ((similarity ← objects.dot_product qe v;
             xs ← get_floats sims;
             put sims (Floats (xs ++ [similarity]))) (<[sims := Floats acc]> h)
            = (Ok (), <[sims := Floats (acc ++ [hw7.dot_product q e])]> h)) as Hbody.
    { erewrite bind_ok; [|apply (dot_product_run _ _ _ q e); by apply lookup_insert_old].
      erewrite bind_ok; [|apply get_floats_run, lookup_insert_eq].
      unfold put. by rewrite insert_insert_eq. }
    rewrite (bind_ok _ _ _ _ _ Hbody), IH. by rewrite <- app_assoc.
Qed.

(** The comprehension that pairs every index with its chunk and its score
    reads the store only. *)
Lemma retrieved_comprehension h (ch sims : loc) (chunks : list str) (scores : list num)
    (l : list Z) :
  h !! ch = Some (Strs chunks) → h !! sims = Some (Floats scores) →
  mapM (λ i,
          ss ← get_strs ch;
          c ← lift (py_index ss i);
          xs ← get_floats sims;
          s ← lift (py_index xs i);
          mret (c, s)) l h
  = (mapM (λ i, c ← py_index chunks i; s ← py_index scores i; Ok (c, s)) l, h).
Proof.
  intros Hch Hsims. induction l as [|i l IH]; [done|].
  rewrite mapM_cons. simpl.
  unfold mbind at 1, M_bind at 1.
  erewrite bind_ok; [|by apply get_strs_run].
  unfold mbind at 1, M_bind at 1, lift at 1.
  destruct (py_index chunks i) as [c|e]; simpl; [|done].
  erewrite bind_ok; [|by apply get_floats_run].
  unfold mbind at 1, M_bind at 1, lift at 1.
  destruct (py_index scores i) as [x|e]; simpl; [|done].
  unfold mbind at 1, M_bind at 1. rewrite IH.
  by destruct (mapM (M:=result) _ l).
Qed.

Lemma retrieve_unfold (q : vector num) (embs : list (vector num)) (chunks : list str)
    (k : Z) :
  hw7.retrieve_relevant_chunks q embs chunks k
  = (rs ← mapM (λ i, c ← py_index chunks i; s ← py_index (similarities q embs) i; Ok (c, s))
               (py_slice (ranking q embs) 0 k).*1;
     Ok (rs, (py_slice (ranking q embs) 0 k).*1)).
Proof.
  unfold hw7.retrieve_relevant_chunks.
  by rewrite (foldl_snoc_fmap (hw7.dot_product q) embs []).
Qed.

Lemma bind_run {A B} (m : M num A) (f : A → M num B) h :
  (m ≫= f) h
  = match m h with
    | (Ok a, h') => f a h'
    | (Raise e, h') => (Raise e, h')
    end.
Proof. reflexivity. Qed.

(** The run of the retriever over list objects on a store that holds the
    query vector, the embeddings and the chunks: it creates the lists
    [similarities], [indexed_similarities] and [topk_indices], which gives
    the store [h'], and then either the list [retrieved_chunks] or nothing
    more when an index is out of range. *)
Lemma retrieve_run h (qe ce ch : loc) (q : vector num) (embs : list (vector num))
    (chunks : list str) (k : Z) :
  holds h qe ce ch q embs chunks →
  ∃ (h' : store num) (topk_indices : loc),
    h' !! topk_indices = Some (Ints (py_slice (ranking q embs) 0 k).*1) ∧
    objects.retrieve_relevant_chunks qe ce ch k h
    = match mapM (λ i, c ← py_index chunks i; s ← py_index (similarities q embs) i;
                       Ok (c, s))
                 (py_slice (ranking q embs) 0 k).*1 with
      | Ok rs => (Ok (fresh (dom h'), topk_indices), <[fresh (dom h') := Results rs]> h')
      | Raise e => (Raise e, h')
      end.
Proof.
  intros (Hq & (vs & Hce & Hvs) & Hch).
  unfold objects.retrieve_relevant_chunks.
  pose proof (fresh_lookup h) as Hs1. set (s1 := fresh (dom h)) in *.
  erewrite bind_ok; [|reflexivity]. fold s1.
  erewrite bind_ok; [|by apply get_vectors_run, lookup_insert_old].
  erewrite bind_ok; [|by apply (similarities_loop h qe s1 q vs embs [])].
  simpl. fold (similarities q embs).
  set (h2 := <[s1 := Floats (similarities q embs)]> h).
  assert (h2 !! s1 = Some (Floats (similarities q embs))) as Hsims
    by apply lookup_insert_eq.
  assert (h2 !! ch = Some (Strs chunks)) as Hch2 by by apply lookup_insert_old.
  erewrite bind_ok; [|by apply get_floats_run].
  pose proof (fresh_lookup h2) as Hs2. set (s2 := fresh (dom h2)) in *.
  erewrite bind_ok; [|reflexivity]. fold s2.
  erewrite bind_ok; [|apply get_pairs_run, lookup_insert_eq].
  erewrite bind_ok; [|reflexivity]. rewrite insert_insert_eq.
  fold (ranking q embs).
  set (h3 := <[s2 := Pairs (ranking q embs)]> h2).
  erewrite bind_ok; [|apply get_pairs_run, lookup_insert_eq].
  pose proof (fresh_lookup h3) as Hs3. set (s3 := fresh (dom h3)) in *.
  erewrite bind_ok; [|reflexivity]. fold s3.
  set (topk := (py_slice (ranking q embs) 0 k).*1).
  set (h4 := <[s3 := Ints topk]> h3).
  erewrite bind_ok; [|apply get_ints_run, lookup_insert_eq].
  assert (h4 !! ch = Some (Strs chunks)) as Hch4.
  { apply lookup_insert_old; [done|]. by apply lookup_insert_old. }
  assert (h4 !! s1 = Some (Floats (similarities q embs))) as Hsims4.
  { apply lookup_insert_old; [done|]. by apply lookup_insert_old. }
  exists h4, s3. split; [apply lookup_insert_eq|].
  rewrite bind_run.
  rewrite (retrieved_comprehension h4 ch s1 chunks (similarities q embs) topk Hch4 Hsims4).
  by destruct (mapM (M:=result) _ topk).
Qed.

(** On a store that holds the query vector, the embeddings and the chunks,
    the retriever over list objects ends as the functional one: with new
    lists that hold the same results, or with the same exception. *)
Lemma retrieve_refines h (qe ce ch : loc) (q : vector num) (embs : list (vector num))
    (chunks : list str) (k : Z) :
  holds h qe ce ch q embs chunks →
  match hw7.retrieve_relevant_chunks q embs chunks k with
  | Ok (retrieved, topk) =>
      ∃ r1 r2 h', objects.retrieve_relevant_chunks qe ce ch k h = (Ok (r1, r2), h') ∧
        h' !! r1 = Some (Results retrieved) ∧ h' !! r2 = Some (Ints topk)
  | Raise e =>
      ∃ h', objects.retrieve_relevant_chunks qe ce ch k h = (Raise e, h')
  end.
Proof.
  intros Hholds.
  destruct (retrieve_run h qe ce ch q embs chunks k Hholds) as (h' & r2 & Hr2 & ->).
  rewrite retrieve_unfold.
  destruct (mapM (M:=result) _ _) as [rs|e]; simpl; [|by eexists].
  eexists _, _, _. split_and!; [done|apply lookup_insert_eq|].
  apply lookup_insert_old; [apply fresh_lookup|done].
Qed.

(** C6 (amended): a query vector of any length makes retrieval over
    index-aligned chunks and embeddings return normally; every returned score
    is the dot product over the common prefix of the query vector and the
    stored vector, and for [k >= 0] there are [min(k, n)] results. On a store
    of list objects that holds the query vector, the embeddings and the
    chunks, the retriever returns new lists with these results and leaves
    every object of the store as it was; it does so on any store, whatever
    its arguments are and whether it returns or raises. *)
Theorem retrieve_ignores_dimension (q : vector num) (embs : list (vector num))
    (chunks : list str) (k : Z) :
  length chunks = length embs →
  ∃ retrieved topk,
    hw7.retrieve_relevant_chunks q embs chunks k = Ok (retrieved, topk) ∧
    Forall (λ r : str * num,
              ∃ (j : nat) e, chunks !! j = Some r.1 ∧ embs !! j = Some e ∧
                r.2 = hw7.dot_product (take (length e) q) (take (length q) e))
           retrieved ∧
    (0 ≤ k → length retrieved = Nat.min (Z.to_nat k) (length chunks)) ∧
    (∀ (h : store num) (qe ce ch : loc),
       holds h qe ce ch q embs chunks →
       ∃ r1 r2 h',
         objects.retrieve_relevant_chunks qe ce ch k h = (Ok (r1, r2), h') ∧
         h' !! r1 = Some (Results retrieved) ∧ h' !! r2 = Some (Ints topk) ∧
         unchanged h h') ∧
    (∀ (h : store num) (qe ce ch : loc),
       unchanged h (objects.retrieve_relevant_chunks qe ce ch k h).2).
Proof.
  intros Hlen.
  destruct (retrieve_relevant_chunks_ok q embs chunks k Hlen) as (retrieved & Hret & Hrel).
  exists retrieved, (py_slice (ranking q embs) 0 k).*1. split_and!; [done| | | |].
  - rewrite Forall_forall. intros r Hr.
    apply list_elem_of_lookup in Hr as [i Hr].
    destruct (Forall2_lookup_r _ _ _ _ _ Hrel Hr) as (p & _ & _ & j & _ & Hc & e & He & Hs).
    exists j, e. split_and!; [done..|]. by rewrite <- dot_product_common_prefix.
  - intros Hk. rewrite py_slice_prefix_nonneg in Hrel by done.
    rewrite <- (Forall2_length _ _ _ Hrel), length_take, length_ranking. lia.
  - intros h qe ce ch Hholds.
    pose proof (retrieve_refines h qe ce ch q embs chunks k Hholds) as Href.
    rewrite Hret in Href. destruct Href as (r1 & r2 & h' & Hrun & Hr1 & Hr2).
    exists r1, r2, h'. split_and!; [done..|].
    pose proof (retrieve_keeps_store h qe ce ch k h (unchanged_refl h)) as [Hkept _].
    by rewrite Hrun in Hkept.
  - intros h qe ce ch. apply (retrieve_keeps_store h qe ce ch k h), unchanged_refl.
Qed.

End StoreProperties.

(** C6, as stated, fails: a query vector of length 1 against stored vectors
    of length 2 raises nothing; the chunks are scored on the first component
    alone. *)
Lemma dimension_mismatch_counterexample :
  length [5] ≠ length [1; 0] ∧
  hw7.retrieve_relevant_chunks [5] [[1; 0]; [2; 9]] [lit "a"; lit "b"] 1
  = Ok ([(lit "b", 10)], [1]) ∧
  ¬ ∃ e, hw7.retrieve_relevant_chunks [5] [[1; 0]; [2; 9]] [lit "a"; lit "b"] 1 = Raise e.
Proof.
  split_and!; [done|vm_compute; reflexivity|].
  intros [e He]. vm_compute in He. discriminate He.
Qed.

(** The amended C6 at the mismatching query of the counterexample. *)
Lemma retrieve_ignores_dimension_witness :
  let q : vector Z := [5] in
  let embs : list (vector Z) := [[1; 0]; [2; 9]] in
  let chunks := [lit "a"; lit "b"] in
  ∃ retrieved topk,
    hw7.retrieve_relevant_chunks q embs chunks 1 = Ok (retrieved, topk) ∧
    Forall (λ r : str * Z,
              ∃ (j : nat) e, chunks !! j = Some r.1 ∧ embs !! j = Some e ∧
                r.2 = hw7.dot_product (take (length e) q) (take (length q) e))
           retrieved ∧
    (0 ≤ 1 → length retrieved = Nat.min (Z.to_nat 1) (length chunks)) ∧
    (∀ (h : store Z) (qe ce ch : loc),
       holds h qe ce ch q embs chunks →
       ∃ r1 r2 h',
         objects.retrieve_relevant_chunks qe ce ch 1 h = (Ok (r1, r2), h') ∧
         h' !! r1 = Some (Results retrieved) ∧ h' !! r2 = Some (Ints topk) ∧
         unchanged h h') ∧
    (∀ (h : store Z) (qe ce ch : loc),
       unchanged h (objects.retrieve_relevant_chunks qe ce ch 1 h).2).
Proof. apply (retrieve_ignores_dimension (number:=Z_number)). reflexivity. Defined.

(** The mismatching query on a store of five list objects: the call creates
    the objects 6 to 9 and returns the last two of them. *)
Example retrieve_on_store :
  let h : store Z :=
    <[1%positive := Floats [5]]> (<[2%positive := Floats [1; 0]]> (
    <[3%positive := Floats [2; 9]]> (<[4%positive := Vectors [2%positive; 3%positive]]> (
    <[5%positive := Strs [lit "a"; lit "b"]]> ∅)))) in
  holds h 1%positive 4%positive 5%positive [5] [[1; 0]; [2; 9]] [lit "a"; lit "b"] ∧
  ∃ h', objects.retrieve_relevant_chunks 1%positive 4%positive 5%positive 1 h
        = (Ok (9%positive, 8%positive), h') ∧
    h' !! 9%positive = Some (Results [(lit "b", 10)]) ∧
    h' !! 8%positive = Some (Ints [1]) ∧
    h' !! 4%positive = Some (Vectors [2%positive; 3%positive]) ∧
    h' !! 2%positive = Some (Floats [1; 0]).
Proof.
  split.
  - split_and!; [done| |done]. eexists. split; [done|]. by repeat constructor.
  - eexists. split; [vm_compute; reflexivity|]. by vm_compute.
Qed.

(** * Further properties of the two scripts *)

(** ** Chunker: what the chunks hold *)

Lemma lstrip_elem (c : char) (s : str) : c ∈ s → isspace c = false → c ∈ lstrip s.
Proof.
  intros Hc Hspace. induction s as [|x s IH]; [done|]. simpl.
  destruct (isspace x) eqn:Hx; [|done].
  apply elem_of_cons in Hc as [->|Hc]; [congruence|by apply IH].
Qed.

Lemma strip_elem (c : char) (s : str) : c ∈ s → isspace c = false → c ∈ strip s.
Proof.
  intros Hc Hspace. unfold strip, rstrip.
  apply elem_of_reverse, lstrip_elem; [|done]. by apply elem_of_reverse, lstrip_elem.
Qed.

Lemma lstrip_blank (s : str) : Forall (λ c, isspace c = true) s → lstrip s = [].
Proof. induction 1 as [|x s Hx _ IH]; [done|]. simpl. by rewrite Hx. Qed.

Lemma strip_blank (s : str) : Forall (λ c, isspace c = true) s → strip s = [].
Proof. intros Hs. unfold strip, rstrip. by rewrite (lstrip_blank s Hs). Qed.

(** A slice with bounds that are not negative, by [take] and [drop]. *)
Lemma py_slice_nonneg {A} (l : list A) (a b : Z) :
  0 ≤ a → 0 ≤ b →
  py_slice l a b = take (Z.to_nat b - Z.to_nat a) (drop (Z.to_nat a) l).
Proof.
  intros Ha Hb. unfold py_slice, slice_bound, len.
  destruct (Z.ltb_spec a 0); [lia|]. destruct (Z.ltb_spec b 0); [lia|].
  destruct (decide (Z.of_nat (length l) ≤ a)) as [Hout|Hin].
  - rewrite (Z.min_r a) by lia. rewrite Nat2Z.id.
    by rewrite !drop_ge, !take_nil by lia.
  - rewrite (Z.min_l a) by lia.
    destruct (decide (b ≤ Z.of_nat (length l))).
    + rewrite (Z.min_l b) by lia. f_equal. lia.
    + rewrite (Z.min_r b) by lia. rewrite !take_ge; [done|rewrite length_drop; lia..].
Qed.

(** [l[a:]] *)
Lemma py_slice_suffix {A} (l : list A) (a : Z) :
  0 ≤ a → py_slice l a (len l) = drop (Z.to_nat a) l.
Proof.
  intros Ha. rewrite py_slice_nonneg by (pose proof (len_nonneg l); lia).
  apply take_ge. rewrite length_drop. unfold len. lia.
Qed.

Lemma window_take_drop (text : str) (chunk_size a : Z) :
  0 ≤ chunk_size → 0 ≤ a →
  window text chunk_size a = take (Z.to_nat chunk_size) (drop (Z.to_nat a) text).
Proof.
  intros Hc Ha. unfold window. rewrite py_slice_nonneg by lia. f_equal. lia.
Qed.

Lemma window_lookup (text : str) (chunk_size a : Z) (i : nat) :
  0 ≤ a → Z.of_nat i < chunk_size →
  window text chunk_size a !! i = text !! (Z.to_nat a + i)%nat.
Proof.
  intros Ha Hi. rewrite window_take_drop by lia.
  unfold str in *. rewrite lookup_take_lt; [apply lookup_drop|lia].
Qed.

Lemma window_blank (text : str) (chunk_size a : Z) :
  Forall (λ c, isspace c = true) text → retained text chunk_size a = false.
Proof.
  intros Hblank. unfold retained, window, py_slice.
  rewrite strip_blank; [done|]. by apply Forall_take, Forall_drop.
Qed.

Lemma filter_none {A} (P : A → Prop) `{!∀ x, Decision (P x)} (l : list A) :
  (∀ x, x ∈ l → ¬ P x) → filter P l = [].
Proof.
  induction l as [|x l IH]; intros Hl; [done|].
  rewrite filter_cons_False by (apply Hl; left). apply IH. intros y Hy. apply Hl. by right.
Qed.

Lemma filter_all {A} (P : A → Prop) `{!∀ x, Decision (P x)} (l : list A) :
  (∀ x, x ∈ l → P x) → filter P l = l.
Proof.
  induction l as [|x l IH]; intros Hl; [done|].
  rewrite filter_cons_True by (apply Hl; left). f_equal. apply IH. intros y Hy.
  apply Hl. by right.
Qed.

(** The number of windows: the length of the text over the stride, rounded up. *)
Lemma range_len_ceil (n step : Z) :
  0 ≤ n → 0 < step → Z.of_nat (range_len 0 n step) = (n + step - 1) / step.
Proof.
  intros Hn Hstep. unfold range_len.
  destruct (Z.ltb_spec 0 step); [|lia].
  destruct (Z.ltb_spec 0 n).
  - rewrite Z.sub_0_r.
    assert (0 ≤ (n - 1) / step) by (apply Z.div_pos; lia).
    replace (n + step - 1) with (n - 1 + 1 * step) by lia.
    rewrite Z.div_add by lia. lia.
  - replace n with 0 by lia. simpl. symmetry. apply Z.div_small. lia.
Qed.

Lemma retained_offsets_spec (text : str) (chunk_size stride a : Z) :
  0 < stride →
  a ∈ (λ j : nat, Z.of_nat j * stride) <$> retained_windows text chunk_size stride ↔
  ∃ j : nat, a = Z.of_nat j * stride ∧ a < len text ∧ retained text chunk_size a = true.
Proof.
  intros Hstride. rewrite list_elem_of_fmap. split.
  - intros (j & -> & Hj). apply retained_windows_spec in Hj as [? ?]; [|done]. eauto.
  - intros (j & -> & ? & ?). exists j. split; [done|]. by apply retained_windows_spec.
Qed.

(** X1: for a valid configuration no character that is not white space is
    lost: it lies in a returned chunk, at the place the offset of the chunk
    tells. *)
Theorem nonblank_characters_are_chunked (text : str) (chunk_size overlap : Z)
    (p : nat) (c : char) :
  0 < chunk_size → 0 ≤ overlap < chunk_size →
  text !! p = Some c → isspace c = false →
  ∃ (offs : list Z) (a : Z),
    chunk_offsets text chunk_size overlap = Ok offs ∧
    hw6.semantic_chunk text chunk_size overlap = Ok (window text chunk_size <$> offs) ∧
    a ∈ offs ∧ a ≤ Z.of_nat p < a + chunk_size ∧
    window text chunk_size a !! Z.to_nat (Z.of_nat p - a) = Some c.
Proof.
  intros Hsize Hoverlap Hp Hspace.
  set (stride := chunk_size - overlap). assert (0 < stride) as Hstride by (unfold stride; lia).
  pose proof (lookup_lt_Some _ _ _ Hp) as Hlen.
  set (j := Z.to_nat (Z.of_nat p / stride)).
  assert (0 ≤ Z.of_nat p / stride) by (apply Z.div_pos; lia).
  pose proof (Z.mul_div_le (Z.of_nat p) stride Hstride).
  pose proof (Z.mul_succ_div_gt (Z.of_nat p) stride Hstride).
  set (a := Z.of_nat j * stride).
  assert (a ≤ Z.of_nat p < a + stride) as Ha by (unfold a, j; lia).
  assert (window text chunk_size a !! Z.to_nat (Z.of_nat p - a) = Some c) as Hc.
  { rewrite window_lookup by (unfold a, stride in *; lia).
    rewrite <- Hp. f_equal. unfold a in *. lia. }
  exists ((λ j : nat, Z.of_nat j * stride) <$> retained_windows text chunk_size stride), a.
  split_and!; [by apply chunk_offsets_pos_stride| | |lia|unfold stride in *; lia|done].
  - rewrite semantic_chunk_offsets, chunk_offsets_pos_stride by done. done.
  - apply retained_offsets_spec; [done|]. exists j. split_and!; [done|unfold len; lia|].
    unfold retained. apply Z.ltb_lt.
    assert (c ∈ strip (window text chunk_size a)) as Hin.
    { apply strip_elem; [|done]. apply list_elem_of_lookup. eauto. }
    destruct (strip (window text chunk_size a)); [by apply not_elem_of_nil in Hin|].
    unfold len. simpl. lia.
Qed.

(** X1 at the text ["a b"] with 2-character windows that overlap by one. *)
Lemma nonblank_characters_are_chunked_witness :
  ∃ (offs : list Z) (a : Z),
    chunk_offsets (lit "a b") 2 1 = Ok offs ∧
    hw6.semantic_chunk (lit "a b") 2 1 = Ok (window (lit "a b") 2 <$> offs) ∧
    a ∈ offs ∧ a ≤ Z.of_nat 2 < a + 2 ∧
    window (lit "a b") 2 a !! Z.to_nat (Z.of_nat 2 - a) = Some 98%N.
Proof.
  apply (nonblank_characters_are_chunked (lit "a b") 2 1 2 98%N); [lia|lia|done|done].
Defined.

Lemma semantic_chunk_blank (text : str) (chunk_size overlap : Z) :
  0 < chunk_size - overlap → Forall (λ c, isspace c = true) text →
  hw6.semantic_chunk text chunk_size overlap = Ok [].
Proof.
  intros Hstride Hblank.
  rewrite semantic_chunk_offsets, chunk_offsets_pos_stride by done.
  unfold retained_windows. rewrite filter_none; [done|].
  intros j _. rewrite (window_blank _ _ _ Hblank). simpl. tauto.
Qed.

(** X2: a text that holds white space only, the empty text included, gives
    no chunk at all, for every positive stride. *)
Theorem blank_text_gives_no_chunks (text : str) (chunk_size overlap : Z) :
  0 < chunk_size - overlap → Forall (λ c, isspace c = true) text →
  hw6.semantic_chunk text chunk_size overlap = Ok [].
Proof. apply semantic_chunk_blank. Qed.

(** X2 at a text of a space, a tab and a line feed. *)
Lemma blank_text_gives_no_chunks_witness :
  hw6.semantic_chunk [32%N; 9%N; 10%N] 2 1 = Ok [].
Proof.
  apply (blank_text_gives_no_chunks [32%N; 9%N; 10%N] 2 1); [lia|].
  by repeat constructor.
Defined.

(** X3: for a valid configuration every chunk is a contiguous part of the
    text of 1 to [chunk_size] characters, and there are at most
    [len(text) / stride], rounded up, chunks. *)
Theorem chunk_bounds (text : str) (chunk_size overlap : Z) :
  0 < chunk_size → 0 ≤ overlap < chunk_size →
  ∃ chunks : list str,
    hw6.semantic_chunk text chunk_size overlap = Ok chunks ∧
    Forall (λ chunk, 1 ≤ len chunk ≤ chunk_size ∧
                     ∃ before after, text = before ++ chunk ++ after) chunks ∧
    len chunks ≤ (len text + (chunk_size - overlap) - 1) / (chunk_size - overlap).
Proof.
  intros Hsize Hoverlap.
  set (stride := chunk_size - overlap). assert (0 < stride) as Hstride by (unfold stride; lia).
  eexists. split.
  { rewrite semantic_chunk_offsets, chunk_offsets_pos_stride by done. done. }
  fold stride. split.
  - rewrite Forall_fmap, Forall_forall. intros a Ha.
    apply retained_offsets_spec in Ha as (j & -> & Hlt & _); [|done]. simpl.
    rewrite len_window by lia. split; [lia|].
    rewrite window_take_drop by lia.
    eexists (take _ text), (drop _ (drop _ text)).
    by rewrite take_drop, take_drop.
  - rewrite <- range_len_ceil by (pose proof (len_nonneg text); lia).
    unfold len at 1. rewrite !length_fmap. unfold retained_windows.
    pose proof (length_filter (λ j : nat, retained text chunk_size (Z.of_nat j * stride))
                  (seq 0 (range_len 0 (len text) stride))) as Hle.
    rewrite length_seq in Hle. lia.
Qed.

(** X3 at the text ["abcd"] with 3-character windows that overlap by two. *)
Lemma chunk_bounds_witness :
  ∃ chunks : list str,
    hw6.semantic_chunk (lit "abcd") 3 2 = Ok chunks ∧
    Forall (λ chunk, 1 ≤ len chunk ≤ 3 ∧
                     ∃ before after, lit "abcd" = before ++ chunk ++ after) chunks ∧
    len chunks ≤ (len (lit "abcd") + (3 - 2) - 1) / (3 - 2).
Proof. apply (chunk_bounds (lit "abcd") 3 2); lia. Defined.

Lemma concat_windows (text : str) (size n : nat) :
  (length text ≤ n * size)%nat →
  concat ((λ j : nat, take size (drop (j * size) text)) <$> seq 0 n) = text.
Proof. intros Hn. rewrite concat_take_drop. by apply take_ge. Qed.

(** X4: without overlap, and when no window is blank, the chunks are a
    tiling of the text: joined end to end they give the text back. *)
Theorem tiling_restores_text (text : str) (chunk_size : Z) :
  0 < chunk_size →
  (∀ j : nat, Z.of_nat j * chunk_size < len text →
              retained text chunk_size (Z.of_nat j * chunk_size) = true) →
  ∃ chunks : list str,
    hw6.semantic_chunk text chunk_size 0 = Ok chunks ∧ concat chunks = text.
Proof.
  intros Hsize Hretained. eexists. split.
  { rewrite semantic_chunk_offsets, chunk_offsets_pos_stride by lia. done. }
  rewrite Z.sub_0_r. unfold retained_windows.
  rewrite filter_all.
  2:{ intros j [_ Hj]%elem_of_seq. apply Is_true_true, Hretained.
      by apply range_len_pos_lt. }
  rewrite <- list_fmap_compose.
  assert (length text ≤ range_len 0 (len text) chunk_size * Z.to_nat chunk_size)%nat
    as Hcover.
  { destruct (decide (range_len 0 (len text) chunk_size * Z.to_nat chunk_size
                      < length text)%nat) as [Hlt|]; [|lia].
    exfalso.
    assert (range_len 0 (len text) chunk_size < range_len 0 (len text) chunk_size)%nat;
      [|lia].
    apply range_len_pos_lt; [done|]. unfold len in *. nia. }
  etrans; [|exact (concat_windows text _ _ Hcover)].
  f_equal. apply list_fmap_ext. intros i j [-> Hj]%lookup_seq. simpl.
  rewrite window_take_drop by lia. do 2 f_equal. lia.
Qed.

(** X4 at the text ["abcde"] cut into pieces of two characters. *)
Lemma tiling_restores_text_witness :
  ∃ chunks : list str,
    hw6.semantic_chunk (lit "abcde") 2 0 = Ok chunks ∧ concat chunks = lit "abcde".
Proof.
  apply (tiling_restores_text (lit "abcde") 2); [lia|].
  intros j Hj. assert (j = 0 ∨ j = 1 ∨ j = 2)%nat as [->|[->| ->]]
    by (change (len (lit "abcde")) with 5 in Hj; lia); reflexivity.
Defined.

(** X5: when two neighbouring chunks start one stride apart, the characters
    of the first from the stride on are the first [overlap] characters of the
    second: [c1[stride:] == c2[:overlap]]. *)
Theorem neighbours_share_the_overlap (text : str) (chunk_size overlap : Z) :
  0 < chunk_size → 0 ≤ overlap < chunk_size →
  ∃ (offs : list Z) (chunks : list str),
    chunk_offsets text chunk_size overlap = Ok offs ∧
    hw6.semantic_chunk text chunk_size overlap = Ok chunks ∧
    ∀ (i : nat) (a : Z) (c1 c2 : str),
      offs !! i = Some a → offs !! S i = Some (a + (chunk_size - overlap)) →
      chunks !! i = Some c1 → chunks !! S i = Some c2 →
      py_slice c1 (chunk_size - overlap) (len c1) = py_slice c2 0 overlap.
Proof.
  intros Hsize Hoverlap.
  set (stride := chunk_size - overlap). assert (0 < stride) as Hstride by (unfold stride; lia).
  eexists _, _. split_and!.
  { by apply chunk_offsets_pos_stride. }
  { rewrite semantic_chunk_offsets, chunk_offsets_pos_stride by done. done. }
  fold stride. intros i a c1 c2 Ha Hb Hc1 Hc2.
  rewrite list_lookup_fmap, Ha in Hc1. rewrite list_lookup_fmap, Hb in Hc2.
  simpl in *. injection Hc1 as <-. injection Hc2 as <-.
  assert (0 ≤ a) as Hnonneg.
  { apply list_elem_of_lookup_2, retained_offsets_spec in Ha as (j & -> & _); [lia|done]. }
  rewrite py_slice_suffix, py_slice_prefix_nonneg by lia.
  rewrite !window_take_drop by lia.
  rewrite take_take.
  replace (Z.to_nat chunk_size) with (Z.to_nat stride + Z.to_nat overlap)%nat at 1
    by (unfold stride; lia).
  rewrite <- take_drop_commute, drop_drop.
  f_equal; [lia|]. f_equal. lia.
Qed.

(** X5 at the text ["abcdef"] with 4-character windows that overlap by one. *)
Lemma neighbours_share_the_overlap_witness :
  ∃ (offs : list Z) (chunks : list str),
    chunk_offsets (lit "abcdef") 4 1 = Ok offs ∧
    hw6.semantic_chunk (lit "abcdef") 4 1 = Ok chunks ∧
    ∀ (i : nat) (a : Z) (c1 c2 : str),
      offs !! i = Some a → offs !! S i = Some (a + (4 - 1)) →
      chunks !! i = Some c1 → chunks !! S i = Some c2 →
      py_slice c1 (4 - 1) (len c1) = py_slice c2 0 1.
Proof. apply (neighbours_share_the_overlap (lit "abcdef") 4 1); lia. Defined.

(** ** Embedding requests *)

Lemma batches_lookup (chunks : list str) (j : nat) (b : list str) :
  batches chunks !! j = Some b →
  (j * 100 < length chunks)%nat ∧ b = take 100 (drop (j * 100) chunks).
Proof.
  rewrite batches_take_drop, list_lookup_fmap.
  destruct (seq 0 _ !! j) as [j'|] eqn:Hj; [|done].
  apply lookup_seq in Hj as [-> Hj]. intros [= <-].
  apply range_len_pos_lt in Hj; [|lia]. unfold len in Hj. split; [lia|done].
Qed.

Lemma length_batches (chunks : list str) :
  len (batches chunks) = (len chunks + 99) / 100.
Proof.
  unfold batches, len at 1. rewrite length_fmap, length_seq.
  rewrite range_len_ceil by (pose proof (len_nonneg chunks); lia).
  f_equal. lia.
Qed.

Section RequestProperties.
Context {num : Type} {client : Client num}.

Lemma batch_loop_answers (f : list str → list (vector num)) (bs : list (list str))
    (acc : list (vector num)) :
  (∀ b, b ∈ bs → embeddings_create hw6.EMBEDDING_MODEL (Many b) = Ok (f b)) →
  for_each (λ embeddings batch,
              response ← embeddings_create hw6.EMBEDDING_MODEL (Many batch);
              Ok (embeddings ++ response))
           acc bs
  = Ok (acc ++ concat (f <$> bs)).
Proof.
  revert acc. induction bs as [|b bs IH]; intros acc Hf; simpl.
  - by rewrite app_nil_r.
  - rewrite Hf by left. simpl. rewrite IH by (intros; apply Hf; by right).
    by rewrite <- app_assoc.
Qed.

Lemma batch_loop_raises (bs : list (list str)) (j : nat) (b : list str) (e : exn)
    (acc : list (vector num)) :
  bs !! j = Some b →
  embeddings_create hw6.EMBEDDING_MODEL (Many b) = Raise e →
  (∀ (i : nat) b', (i < j)%nat → bs !! i = Some b' →
     ∃ r, embeddings_create hw6.EMBEDDING_MODEL (Many b') = Ok r) →
  for_each (λ embeddings batch,
              response ← embeddings_create hw6.EMBEDDING_MODEL (Many batch);
              Ok (embeddings ++ response))
           acc bs
  = Raise e.
Proof.
  revert j acc. induction bs as [|b0 bs IH]; intros j acc Hj Hb Hbefore; [done|].
  destruct j as [|j]; simpl in *.
  - injection Hj as ->. by rewrite Hb.
  - destruct (Hbefore 0%nat b0) as [r Hr]; [lia|done|]. rewrite Hr. simpl.
    apply (IH j); [done..|]. intros i b' Hi Hb'. apply (Hbefore (S i)); [lia|done].
Qed.

(** X6: [compute_embeddings] does not look at what the service answers: when
    every batch is answered, whatever the number of vectors in each answer,
    it returns the answers glued together in the order of the batches. *)
Theorem compute_embeddings_glues_answers (f : list str → list (vector num))
    (chunks : list str) :
  (∀ b, b ∈ batches chunks → embeddings_create hw6.EMBEDDING_MODEL (Many b) = Ok (f b)) →
  hw6.compute_embeddings chunks = Ok (concat (f <$> batches chunks)).
Proof.
  intros Hf. rewrite compute_embeddings_batches.
  by rewrite (batch_loop_answers f).
Qed.

(** X7: the first batch that the service refuses ends [compute_embeddings]
    with the exception of that request; the vectors of the batches before it
    are not returned. *)
Theorem compute_embeddings_first_failure (chunks : list str) (j : nat) (b : list str)
    (e : exn) :
  batches chunks !! j = Some b →
  embeddings_create hw6.EMBEDDING_MODEL (Many b) = Raise e →
  (∀ (i : nat) b', (i < j)%nat → batches chunks !! i = Some b' →
     ∃ r, embeddings_create hw6.EMBEDDING_MODEL (Many b') = Ok r) →
  hw6.compute_embeddings chunks = Raise e.
Proof.
  intros Hj Hb Hbefore. rewrite compute_embeddings_batches.
  by apply (batch_loop_raises _ j b).
Qed.

(** X8: for [n] chunks [compute_embeddings] makes [n / 100], rounded up,
    requests (none for no chunks); request [j] holds the chunks from
    [100 * j] on, exactly 100 of them unless it is the last request. *)
Theorem compute_embeddings_requests (chunks : list str) :
  hw6.compute_embeddings chunks
  = for_each (λ embeddings batch,
                response ← embeddings_create hw6.EMBEDDING_MODEL (Many batch);
                Ok (embeddings ++ response))
             [] (batches chunks) ∧
  len (batches chunks) = (len chunks + 99) / 100 ∧
  ∀ (j : nat) (b : list str), batches chunks !! j = Some b →
    (∀ i : nat, (i < 100)%nat → b !! i = chunks !! (j * 100 + i)%nat) ∧
    (1 ≤ length b ≤ 100)%nat ∧
    ((S j < length (batches chunks))%nat → length b = 100%nat).
Proof.
  split_and!; [apply compute_embeddings_batches|apply length_batches|].
  intros j b Hb. pose proof (length_batches chunks) as Hcount.
  apply batches_lookup in Hb as [Hj ->]. split; [|split].
  - intros i Hi. by rewrite lookup_take_lt, lookup_drop.
  - rewrite length_take, length_drop. lia.
  - intros Hlast. rewrite length_take, length_drop.
    assert (Z.of_nat (S j) < (len chunks + 99) / 100) as Hlt
      by (rewrite <- Hcount; unfold len; lia).
    unfold len in Hlt.
    pose proof (Z.mul_div_le (Z.of_nat (length chunks) + 99) 100). lia.
Qed.

End RequestProperties.

(** X6 at 101 chunks and a service that answers every request with one
    vector: two vectors come back for the 101 chunks. *)
Lemma compute_embeddings_glues_answers_witness :
  hw6.compute_embeddings (client:=terse_client) (replicate 101 (lit "ab"))
  = Ok (concat ((λ _, [[1]]) <$> batches (replicate 101 (lit "ab")))).
Proof.
  apply (compute_embeddings_glues_answers (client:=terse_client) (λ _, [[1]])).
  intros b _. reflexivity.
Defined.

(** X7 at one chunk and a service that is down. *)
Lemma compute_embeddings_first_failure_witness :
  hw6.compute_embeddings (client:=down_client) [lit "ab"] = Raise APIError.
Proof.
  apply (compute_embeddings_first_failure (client:=down_client) [lit "ab"] 0 [lit "ab"]).
  - reflexivity.
  - reflexivity.
  - intros i b' Hi. lia.
Defined.

(** ** Retriever: the indices it returns *)

Lemma mapM_take {A B} (f : A → result B) (l : list A) (ys : list B) (n : nat) :
  mapM f l = Ok ys → mapM f (take n l) = Ok (take n ys).
Proof.
  revert ys n. induction l as [|x l IH]; intros ys n.
  - intros [= <-]. by rewrite !take_nil.
  - rewrite mapM_cons. destruct (f x) as [y|] eqn:Hy; simpl; [|done].
    destruct (mapM f l) as [ys'|] eqn:Hys; simpl; [|done].
    intros [= <-]. destruct n as [|n]; [done|].
    change (take (S n) (x :: l)) with (x :: take n l).
    change (take (S n) (y :: ys')) with (y :: take n ys').
    rewrite mapM_cons, Hy. simpl. by rewrite (IH ys' n).
Qed.

Lemma mapM_ext_in {A B} (f g : A → result B) (l : list A) :
  (∀ x, x ∈ l → f x = g x) → mapM f l = mapM g l.
Proof.
  induction l as [|x l IH]; intros Hfg; [done|].
  rewrite !mapM_cons, Hfg by left. rewrite IH; [done|]. intros y Hy. apply Hfg. by right.
Qed.

Lemma mapM_raises {A B} (f : A → result B) (l : list A) (e : exn) :
  (∀ x, x ∈ l → (∃ y, f x = Ok y) ∨ f x = Raise e) →
  (∃ x, x ∈ l ∧ f x = Raise e) →
  mapM f l = Raise e.
Proof.
  induction l as [|x l IH]; intros Hall (x0 & Hin & Hx0).
  - by apply not_elem_of_nil in Hin.
  - rewrite mapM_cons. destruct (Hall x) as [[y Hy]|Hx]; [by left| |by rewrite Hx].
    rewrite Hy. simpl. rewrite IH; [done| |].
    + intros z Hz. apply Hall. by right.
    + apply elem_of_cons in Hin as [->|Hin]; [congruence|eauto].
Qed.

Lemma py_index_cases {A} (l : list A) (i : Z) :
  (∃ x, py_index l i = Ok x) ∨ py_index l i = Raise IndexError.
Proof.
  unfold py_index. destruct (_ <? 0); [by right|].
  destruct (l !! _); [left; eauto|by right].
Qed.

Lemma py_index_take {A} (l : list A) (n j : nat) :
  (j < n)%nat → (n ≤ length l)%nat →
  py_index (take n l) (Z.of_nat j) = py_index l (Z.of_nat j).
Proof.
  intros Hj Hn. unfold py_index.
  destruct (Z.ltb_spec (Z.of_nat j) 0); [lia|].
  destruct (Z.ltb_spec (Z.of_nat j) 0); [lia|].
  by rewrite Nat2Z.id, lookup_take_lt.
Qed.

Section IndexProperties.
Context {num : Type} {number : Number num}.
Implicit Types (q : vector num) (embs : list (vector num)) (chunks : list str).

(** The selection of [retrieve_relevant_chunks]: the indices of [ranking[:k]],
    and for each of them its chunk and its score. *)
Lemma retrieve_eq q embs chunks k :
  hw7.retrieve_relevant_chunks q embs chunks k
  = (retrieved ←
       mapM (λ i, c ← py_index chunks i; s ← py_index (similarities q embs) i; Ok (c, s))
            (py_slice (ranking q embs) 0 k).*1;
     Ok (retrieved, (py_slice (ranking q embs) 0 k).*1)).
Proof.
  unfold hw7.retrieve_relevant_chunks.
  by rewrite (foldl_snoc_fmap (hw7.dot_product q) embs []).
Qed.

Lemma ranking_indices q embs :
  (ranking q embs).*1 ≡ₚ Z.of_nat <$> seq 0 (length embs).
Proof.
  rewrite ranking_Permutation, fst_enumerate. unfold similarities.
  by rewrite length_fmap.
Qed.

Lemma ranking_elem q embs (p : Z * num) :
  p ∈ ranking q embs ↔
  ∃ (j : nat) e, p.1 = Z.of_nat j ∧ embs !! j = Some e ∧ p.2 = hw7.dot_product q e.
Proof.
  rewrite ranking_Permutation, elem_of_enumerate. unfold similarities.
  split.
  - intros (j & Hidx & Hj). rewrite list_lookup_fmap in Hj.
    destruct (embs !! j) as [e|] eqn:He; [|done]. injection Hj as Hj. eauto.
  - intros (j & e & Hidx & He & Hscore). exists j. split; [done|].
    by rewrite list_lookup_fmap, He, Hscore.
Qed.

Lemma ranking_NoDup q embs : NoDup (ranking q embs).*1.
Proof.
  rewrite ranking_indices. apply (NoDup_fmap_2 _), NoDup_seq.
Qed.

Lemma slice_indices q embs k (i : Z) :
  i ∈ (py_slice (ranking q embs) 0 k).*1 →
  ∃ j : nat, i = Z.of_nat j ∧ (j < length embs)%nat.
Proof.
  intros (p & -> & Hp)%list_elem_of_fmap.
  rewrite py_slice_prefix in Hp. apply subseteq_take in Hp.
  apply ranking_elem in Hp as (j & e & Hidx & He & _).
  exists j. split; [done|]. by eapply lookup_lt_Some.
Qed.

(** X9: what retrieval returns are the best scores: under index-aligned
    chunks and embeddings and a proper [<] on the scores, no stored embedding
    that was left out scores higher than one that was returned. *)
Theorem retrieve_leaves_out_no_better q embs chunks k :
  length chunks = length embs → 0 ≤ k →
  strict_weak_on py_lt (similarities q embs) →
  ∃ retrieved topk,
    hw7.retrieve_relevant_chunks q embs chunks k = Ok (retrieved, topk) ∧
    ∀ (i j : nat) (ei ej : vector num),
      Z.of_nat i ∈ topk → Z.of_nat j ∉ topk →
      embs !! i = Some ei → embs !! j = Some ej →
      py_lt (hw7.dot_product q ei) (hw7.dot_product q ej) = false.
Proof.
  intros Hlen Hk Hswo.
  destruct (retrieve_relevant_chunks_ok q embs chunks k Hlen) as (retrieved & Hret & _).
  rewrite py_slice_prefix_nonneg in Hret by lia.
  eexists _, _. split; [exact Hret|].
  intros i j ei ej (p & Hpi & Hp)%list_elem_of_fmap Hout Hi Hj.
  pose proof (ranking_sorted q embs Hswo) as Hsorted.
  rewrite <- (take_drop (Z.to_nat k) (ranking q embs)) in Hsorted.
  assert (p ∈ ranking q embs) as Hp' by (by eapply subseteq_take).
  apply ranking_elem in Hp' as (i' & ei' & Hidx & Hei' & Hscore).
  assert (i' = i) as -> by lia. assert (ei' = ei) as -> by congruence.
  assert ((Z.of_nat j, hw7.dot_product q ej) ∈ drop (Z.to_nat k) (ranking q embs)) as Hdrop.
  { assert ((Z.of_nat j, hw7.dot_product q ej) ∈ ranking q embs) as Hin
      by (apply ranking_elem; eauto).
    rewrite <- (take_drop (Z.to_nat k) (ranking q embs)) in Hin.
    apply elem_of_app in Hin as [Hin|Hin]; [|done].
    exfalso. apply Hout. by apply (list_elem_of_fmap_2' fst _ _ _ Hin). }
  pose proof (StronglySorted_app_1_elem_of _ _ _ _ _ Hsorted Hp Hdrop) as Hranked.
  rewrite <- Hscore.
  apply (ranked_before_not_lt (similarities q embs) p (Z.of_nat j, hw7.dot_product q ej));
    [done| | |done].
  - rewrite Hscore. unfold similarities. apply list_elem_of_fmap. exists ei.
    split; [done|]. by eapply list_elem_of_lookup_2.
  - simpl. unfold similarities. apply list_elem_of_fmap. exists ej.
    split; [done|]. by eapply list_elem_of_lookup_2.
Qed.

(** X10: for index-aligned chunks and embeddings and every [k], the negative
    ones included, the returned indices are distinct positions of the store
    and there is one retrieved pair for each of them. *)
Theorem retrieve_indices_distinct q embs chunks k :
  length chunks = length embs →
  ∃ retrieved topk,
    hw7.retrieve_relevant_chunks q embs chunks k = Ok (retrieved, topk) ∧
    NoDup topk ∧
    Forall (λ i, 0 ≤ i < len chunks) topk ∧
    length retrieved = length topk.
Proof.
  intros Hlen.
  destruct (retrieve_relevant_chunks_ok q embs chunks k Hlen) as (retrieved & Hret & Hrel).
  eexists _, _. split; [exact Hret|]. split_and!.
  - rewrite py_slice_prefix, fmap_take.
    exact (sublist_NoDup _ _ (ranking_NoDup q embs) (sublist_take _ _)).
  - rewrite Forall_forall. intros i (j & -> & Hj)%slice_indices. unfold len. lia.
  - by rewrite length_fmap, (Forall2_length _ _ _ Hrel).
Qed.

(** X11: a smaller [k] gives a prefix: when retrieval with [k2] returns, then
    retrieval with [0 <= k1 <= k2] returns the first [k1] pairs and indices
    of that result. *)
Theorem retrieve_prefix q embs chunks k1 k2 (retrieved : list (str * num))
    (topk : list Z) :
  0 ≤ k1 ≤ k2 →
  hw7.retrieve_relevant_chunks q embs chunks k2 = Ok (retrieved, topk) →
  hw7.retrieve_relevant_chunks q embs chunks k1
  = Ok (take (Z.to_nat k1) retrieved, take (Z.to_nat k1) topk).
Proof.
  intros Hk. rewrite !retrieve_eq.
  destruct (mapM _ (py_slice (ranking q embs) 0 k2).*1) as [rs|] eqn:Hrs; simpl; [|done].
  intros [= <- <-].
  assert ((py_slice (ranking q embs) 0 k1).*1
          = take (Z.to_nat k1) (py_slice (ranking q embs) 0 k2).*1) as ->.
  { rewrite !py_slice_prefix_nonneg by lia. rewrite <- fmap_take, take_take.
    do 2 f_equal. lia. }
  by rewrite (mapM_take _ _ _ _ Hrs).
Qed.

(** X12: a negative [k] is read as a slice bound from the end: retrieval with
    [k < 0] is retrieval with [max(0, n + k)], for [n] stored embeddings. *)
Theorem retrieve_negative_k q embs chunks k :
  k < 0 →
  hw7.retrieve_relevant_chunks q embs chunks k
  = hw7.retrieve_relevant_chunks q embs chunks (Z.max 0 (len embs + k)).
Proof.
  intros Hk. rewrite !retrieve_eq.
  assert (py_slice (ranking q embs) 0 k
          = py_slice (ranking q embs) 0 (Z.max 0 (len embs + k))) as ->; [|done].
  rewrite !py_slice_prefix. do 2 f_equal.
  unfold slice_bound, len. rewrite length_ranking.
  destruct (Z.ltb_spec k 0); [|lia].
  destruct (Z.ltb_spec (Z.max 0 (Z.of_nat (length embs) + k)) 0); lia.
Qed.

(** X13: with fewer chunks than stored embeddings, asking for all of them
    ([k >= n]) raises IndexError. *)
Theorem retrieve_missing_chunks q embs chunks k :
  (length chunks < length embs)%nat → len embs ≤ k →
  hw7.retrieve_relevant_chunks q embs chunks k = Raise IndexError.
Proof.
  intros Hlen Hk. rewrite retrieve_eq.
  rewrite (mapM_raises _ _ IndexError); [done| |].
  - intros i _. destruct (py_index_cases chunks i) as [[c ->]| ->]; simpl; [|by right].
    destruct (py_index_cases (similarities q embs) i) as [[s ->]| ->]; simpl; eauto.
  - exists (len chunks). split.
    + rewrite py_slice_prefix_nonneg by (pose proof (len_nonneg embs); lia).
      rewrite take_ge by (rewrite length_ranking; unfold len in Hk; lia).
      rewrite ranking_indices. apply list_elem_of_fmap. exists (length chunks).
      split; [done|]. apply elem_of_seq. lia.
    + unfold py_index, len.
      destruct (Z.ltb_spec (Z.of_nat (length chunks)) 0); [lia|].
      destruct (Z.ltb_spec (Z.of_nat (length chunks)) 0); [lia|].
      by rewrite Nat2Z.id, (lookup_ge_None_2 chunks) by lia.
Qed.

(** X14: chunks beyond the stored embeddings are never looked at: with at
    least as many chunks as embeddings, retrieval gives what it gives over
    the first [n] chunks. *)
Theorem retrieve_ignores_extra_chunks q embs chunks k :
  (length embs ≤ length chunks)%nat →
  hw7.retrieve_relevant_chunks q embs chunks k
  = hw7.retrieve_relevant_chunks q embs (take (length embs) chunks) k.
Proof.
  intros Hlen. rewrite !retrieve_eq.
  rewrite (mapM_ext_in _
    (λ i, c ← py_index (take (length embs) chunks) i;
          s ← py_index (similarities q embs) i; Ok (c, s))); [done|].
  intros i (j & -> & Hj)%slice_indices. by rewrite py_index_take.
Qed.

End IndexProperties.

(** X9 at the retrieval scenario: (0, 10) with score 0 is left out. *)
Lemma retrieve_leaves_out_no_better_witness :
  let q : vector Z := [10; 0] in
  let embs : list (vector Z) := [[10; 0]; [0; 10]; [7; 7]] in
  ∃ retrieved topk,
    hw7.retrieve_relevant_chunks q embs [lit "c0"; lit "c1"; lit "c2"] 2
    = Ok (retrieved, topk) ∧
    ∀ (i j : nat) (ei ej : vector Z),
      Z.of_nat i ∈ topk → Z.of_nat j ∉ topk →
      embs !! i = Some ei → embs !! j = Some ej →
      py_lt (hw7.dot_product q ei) (hw7.dot_product q ej) = false.
Proof.
  apply (retrieve_leaves_out_no_better (number:=Z_number));
    [reflexivity|lia|apply Z_strict_weak].
Defined.

(** X10 at the retrieval scenario with [k = -1]. *)
Lemma retrieve_indices_distinct_witness :
  ∃ retrieved topk,
    hw7.retrieve_relevant_chunks [10; 0] [[10; 0]; [0; 10]; [7; 7]]
      [lit "c0"; lit "c1"; lit "c2"] (-1) = Ok (retrieved, topk) ∧
    NoDup topk ∧
    Forall (λ i, 0 ≤ i < len [lit "c0"; lit "c1"; lit "c2"]) topk ∧
    length retrieved = length topk.
Proof. apply (retrieve_indices_distinct (number:=Z_number)). reflexivity. Defined.

(** X11 at the retrieval scenario: the best one of the best two. *)
Lemma retrieve_prefix_witness :
  hw7.retrieve_relevant_chunks [10; 0] [[10; 0]; [0; 10]; [7; 7]]
    [lit "c0"; lit "c1"; lit "c2"] 1
  = Ok (take (Z.to_nat 1) [(lit "c0", 100); (lit "c2", 70)], take (Z.to_nat 1) [0; 2]).
Proof.
  apply (retrieve_prefix (number:=Z_number) _ _ _ 1 2); [lia|].
  vm_compute. reflexivity.
Defined.

(** X12 at the retrieval scenario: [k = -1] leaves out the worst of three. *)
Lemma retrieve_negative_k_witness :
  hw7.retrieve_relevant_chunks [10; 0] [[10; 0]; [0; 10]; [7; 7]]
    [lit "c0"; lit "c1"; lit "c2"] (-1)
  = hw7.retrieve_relevant_chunks [10; 0] [[10; 0]; [0; 10]; [7; 7]]
      [lit "c0"; lit "c1"; lit "c2"] (Z.max 0 (len [[10; 0]; [0; 10]; [7; 7]] + -1)).
Proof. apply (retrieve_negative_k (number:=Z_number)). lia. Defined.

(** X13 at two stored embeddings with one chunk. *)
Lemma retrieve_missing_chunks_witness :
  hw7.retrieve_relevant_chunks [1] [[5]; [7]] [lit "c0"] 5 = Raise IndexError.
Proof.
  apply (retrieve_missing_chunks (number:=Z_number)); [simpl; lia|].
  change (len [[5]; [7]]) with 2. lia.
Defined.

(** X14 at one stored embedding with two chunks. *)
Lemma retrieve_ignores_extra_chunks_witness :
  hw7.retrieve_relevant_chunks [1] [[5]] [lit "c0"; lit "c1"] 5
  = hw7.retrieve_relevant_chunks [1] [[5]] (take (length [[5]]) [lit "c0"; lit "c1"]) 5.
Proof. apply (retrieve_ignores_extra_chunks (number:=Z_number)). simpl. lia. Defined.

(** ** Prompt assembler: indices and delimiters *)

Lemma py_index_in_range {A} (l : list A) (i : Z) :
  - len l ≤ i < len l →
  ∃ x, py_index l i = Ok x ∧ l !! Z.to_nat (i `mod` len l) = Some x.
Proof.
  intros Hi. unfold py_index, len in *.
  assert (0 < Z.of_nat (length l)) as Hpos by lia.
  destruct (Z.ltb_spec i 0).
  - destruct (Z.ltb_spec (i + Z.of_nat (length l)) 0); [lia|].
    replace (i `mod` Z.of_nat (length l)) with (i + Z.of_nat (length l)).
    2:{ apply (Z.mod_unique_pos _ _ (-1)); lia. }
    destruct (lookup_lt_is_Some_2 l (Z.to_nat (i + Z.of_nat (length l)))) as [x Hx]; [lia|].
    rewrite Hx. eauto.
  - destruct (Z.ltb_spec i 0); [lia|].
    rewrite Z.mod_small by lia.
    destruct (lookup_lt_is_Some_2 l (Z.to_nat i)) as [x Hx]; [lia|].
    rewrite Hx. eauto.
Qed.

Lemma py_index_out_of_range {A} (l : list A) (i : Z) :
  i < - len l ∨ len l ≤ i → py_index l i = Raise IndexError.
Proof.
  intros Hi. unfold py_index, len in *.
  destruct (Z.ltb_spec i 0).
  - destruct (Z.ltb_spec (i + Z.of_nat (length l)) 0); [done|lia].
  - destruct (Z.ltb_spec i 0); [lia|].
    by rewrite (lookup_ge_None_2 l) by lia.
Qed.

Lemma select_chunks (chunks : list str) (topk_indices : list Z) :
  (Forall (λ i, - len chunks ≤ i < len chunks) topk_indices ∧
   ∃ texts, mapM (py_index chunks) topk_indices = Ok texts ∧
     Forall2 (λ i text, chunks !! Z.to_nat (i `mod` len chunks) = Some text)
             topk_indices texts)
  ∨ (Exists (λ i, i < - len chunks ∨ len chunks ≤ i) topk_indices ∧
     mapM (py_index chunks) topk_indices = Raise IndexError).
Proof.
  induction topk_indices as [|i l IH].
  - left. split; [constructor|]. exists []. by split; [|constructor].
  - rewrite mapM_cons.
    destruct (decide (- len chunks ≤ i < len chunks)) as [Hi|Hi].
    + destruct (py_index_in_range chunks i Hi) as (x & -> & Hx). simpl.
      destruct IH as [(Hl & texts & -> & Htexts)|(Hl & ->)].
      * left. split; [by constructor|]. exists (x :: texts). by split; [|constructor].
      * right. split; [by apply Exists_cons_tl|done].
    + right. assert (i < - len chunks ∨ len chunks ≤ i) as Hout by lia.
      split; [by apply Exists_cons_hd|]. by rewrite py_index_out_of_range.
Qed.

(** X15: [create_augmented_prompt] returns a prompt exactly when every index
    lies in [-n, n) for [n] chunks; a negative index then shows the chunk
    counted from the end, and block [i] shows the chunk of the [i]-th index.
    With any other index it raises IndexError. *)
Theorem prompt_index_range {num} (query : str) (retrieved_chunks : list (str * num))
    (topk_indices : list Z) (chunks : list str) :
  (Forall (λ i, - len chunks ≤ i < len chunks) topk_indices ∧
   ∃ texts,
     hw7.create_augmented_prompt query retrieved_chunks topk_indices chunks
     = Ok (prompt_of texts) ∧
     Forall2 (λ i text, chunks !! Z.to_nat (i `mod` len chunks) = Some text)
             topk_indices texts)
  ∨ (Exists (λ i, i < - len chunks ∨ len chunks ≤ i) topk_indices ∧
     hw7.create_augmented_prompt query retrieved_chunks topk_indices chunks
     = Raise IndexError).
Proof.
  rewrite create_augmented_prompt_eq.
  destruct (select_chunks chunks topk_indices) as [(Hl & texts & -> & Htexts)|(Hl & ->)].
  - left. split; [done|]. by exists texts.
  - by right.
Qed.

(** X16: the text of a chunk goes into the prompt as it is, so the blocks of
    a prompt do not tell the chunks apart: one chunk that holds the closing
    line of a block and the opening line of the next one gives the very
    prompt of the two chunks [a] and [b]. *)
Theorem prompt_blocks_can_be_forged {num} (query : str)
    (retrieved1 retrieved2 : list (str * num)) (a b : str) :
  hw7.create_augmented_prompt query retrieved1 [0]
    [a ++ newline ++ lit "</retrieved_knowledge>" ++ newline ++ newline ++ newline
       ++ lit "<retrieved_knowledge id=" ++ dquote ++ lit "document-1" ++ dquote
       ++ lit ">" ++ newline ++ b]
  = hw7.create_augmented_prompt query retrieved2 [0; 1] [a; b].
Proof.
  rewrite !create_augmented_prompt_eq.
  set (forged := a ++ _).
  change (Ok (prompt_of [forged]) = Ok (prompt_of [a; b])).
  f_equal. unfold prompt_of. do 2 f_equal.
  change (knowledge_block 0 forged ++ newline
          = (knowledge_block 0 a ++ newline ++ knowledge_block 1 b) ++ newline).
  unfold knowledge_block, forged. rewrite <- !app_assoc. reflexivity.
Qed.

(** ** The scripts' knowledge-base builds *)

Lemma load_saved {num} (chunks : list str) (embeddings : list (vector num))
    (fs : filesystem num) :
  hw7.load_knowledge_base (hw7.save_knowledge_base chunks embeddings fs)
  = Ok (of_chunks chunks, of_embeddings embeddings).
Proof.
  unfold hw7.load_knowledge_base, hw7.save_knowledge_base, open_r.
  rewrite lookup_insert_eq. simpl. rewrite lookup_insert_eq. simpl.
  rewrite lookup_insert_ne by lit_neq. rewrite lookup_insert_eq. done.
Qed.

Lemma join_blank (sep : str) (documents : list str) :
  Forall (λ c, isspace c = true) sep →
  Forall (Forall (λ c, isspace c = true)) documents →
  Forall (λ c, isspace c = true) (join sep documents).
Proof.
  intros Hsep. induction 1 as [|d [|d' ds] Hd Hds IH]; [constructor|done|].
  change (join sep (d :: d' :: ds)) with (d ++ sep ++ join sep (d' :: ds)).
  by repeat apply Forall_app_2.
Qed.

Section BuildProperties.
Context {num : Type} {client : Client num} {web : Web}.

Lemma download_loop_spec (documents urls : list str) :
  (∃ texts, hw6.download_loop documents urls = Returns (documents ++ texts) ∧
            Forall2 (λ url text, urlopen url = Some text) urls texts)
  ∨ (hw6.download_loop documents urls = Raises DownloadError ∧
     Exists (λ url, urlopen url = None) urls).
Proof.
  revert documents. induction urls as [|url urls IH]; intros documents; simpl.
  - left. exists []. by rewrite app_nil_r; split; [|constructor].
  - destruct (urlopen url) as [text|] eqn:Hurl.
    + destruct (IH (documents ++ [text])) as [(texts & -> & Htexts)|[-> Hex]].
      * left. exists (text :: texts). rewrite <- app_assoc. by split; [|constructor].
      * right. split; [done|by apply Exists_cons_tl].
    + right. split; [done|by apply Exists_cons_hd].
Qed.

(** X17: [download_documents] returns the texts of all URLs, in the order of
    the URLs, when every download succeeds; the first failing one ends it
    with that failure and no text is returned. *)
Theorem download_documents_all_or_nothing (urls : list str) :
  (∃ texts, hw6.download_documents urls = Returns texts ∧
            Forall2 (λ url text, urlopen url = Some text) urls texts)
  ∨ (hw6.download_documents urls = Raises DownloadError ∧
     Exists (λ url, urlopen url = None) urls).
Proof. apply (download_loop_spec [] urls). Qed.

Lemma compute_embeddings_nil : hw6.compute_embeddings (client:=client) [] = Ok [].
Proof. reflexivity. Qed.

(** How [main] of [hw6_asingh101.py] ends. *)
Lemma main_cases (fs : filesystem num) :
  (∃ r, r ≠ ZeroDivisionError ∧ hw6.main fs = (Raises r, fs))
  ∨ (∃ documents chunks embeddings,
       hw6.download_documents hw6.DOCUMENT_URLS = Returns documents ∧
       hw6.semantic_chunk (join (newline ++ newline) documents) hw6.CHUNK_SIZE hw6.OVERLAP
       = Ok chunks ∧
       hw6.compute_embeddings chunks = Ok embeddings ∧
       chunks ≠ [] ∧ embeddings ≠ [] ∧
       hw6.main fs
       = (Returns (), hw6.save_knowledge_base chunks embeddings hw6.OUTPUT_FILE fs)).
Proof.
  unfold hw6.main.
  destruct (download_documents_all_or_nothing hw6.DOCUMENT_URLS)
    as [(documents & Hdocs & _)|[Hdocs _]]; rewrite Hdocs.
  2:{ left. by exists DownloadError. }
  destruct (hw6.semantic_chunk _ _ _) as [chunks|e] eqn:Hchunks.
  2:{ left. by exists (Exn e). }
  destruct (hw6.compute_embeddings chunks) as [embeddings|e] eqn:Hemb.
  2:{ left. by exists (Exn e). }
  destruct (py_index embeddings 0) as [first|e] eqn:Hfirst.
  2:{ left. by exists (Exn e). }
  assert (embeddings ≠ []) as Hne by (by intros ->).
  assert (chunks ≠ []) as Hnc.
  { intros ->. rewrite compute_embeddings_nil in Hemb. by injection Hemb as <-. }
  destruct (Z.eqb_spec (len chunks) 0) as [Hzero|_].
  { destruct chunks; [done|]. unfold len in Hzero. simpl in Hzero. lia. }
  right. by exists documents, chunks, embeddings.
Qed.

(** X18: [main] of [hw6_asingh101.py] never divides by zero when it averages
    the chunk lengths; and when the download or an embedding request raises,
    or no vector comes back, it ends with that exception, or with IndexError,
    before [save_knowledge_base] is reached: no file is written. *)
Theorem main_fails_before_writing (fs : filesystem num) :
  (hw6.main fs).1 ≠ Raises ZeroDivisionError ∧
  (∀ r, hw6.download_documents hw6.DOCUMENT_URLS = Raises r →
     hw6.main fs = (Raises r, fs)) ∧
  (∀ documents chunks,
     hw6.download_documents hw6.DOCUMENT_URLS = Returns documents →
     hw6.semantic_chunk (join (newline ++ newline) documents) 800 200 = Ok chunks →
     (∀ e, hw6.compute_embeddings chunks = Raise e →
        hw6.main fs = (Raises (Exn e), fs)) ∧
     (hw6.compute_embeddings chunks = Ok [] →
        hw6.main fs = (Raises (Exn IndexError), fs))).
Proof.
  split_and!.
  - destruct (main_cases fs) as [(r & Hr & ->)|(? & ? & ? & _ & _ & _ & _ & _ & ->)];
      simpl; congruence.
  - intros r Hr. unfold hw6.main. by rewrite Hr.
  - intros documents chunks Hdocs Hchunks. unfold hw6.main. rewrite Hdocs.
    change hw6.CHUNK_SIZE with 800. change hw6.OVERLAP with 200. rewrite Hchunks.
    split; [intros e He|intros He]; by rewrite He.
Qed.

(** X19: when [main] of [hw6_asingh101.py] returns, it has chunked the
    downloaded text into at least one chunk, the service has answered with at
    least one vector, and the file it leaves is one from which
    [load_knowledge_base] of [asingh101_hw7.py] reads these chunks and
    vectors. *)
Theorem main_leaves_loadable_store (fs fs' : filesystem num) :
  hw6.main fs = (Returns (), fs') →
  ∃ documents chunks embeddings,
    hw6.download_documents hw6.DOCUMENT_URLS = Returns documents ∧
    hw6.semantic_chunk (join (newline ++ newline) documents) 800 200 = Ok chunks ∧
    hw6.compute_embeddings chunks = Ok embeddings ∧
    chunks ≠ [] ∧ embeddings ≠ [] ∧
    fs' = hw6.save_knowledge_base chunks embeddings hw6.OUTPUT_FILE fs ∧
    hw7.load_knowledge_base fs' = Ok (of_chunks chunks, of_embeddings embeddings).
Proof.
  destruct (main_cases fs) as [(r & _ & ->)|(docs & chunks & embs & ? & ? & ? & ? & ? & ->)];
    [done|].
  intros [= <-]. exists docs, chunks, embs. split_and!; [done..|].
  rewrite <- save_knowledge_base_same. apply load_saved.
Qed.

(** X20: when all downloaded documents are blank, [main] of
    [hw6_asingh101.py] ends with IndexError, at [embeddings[0]], and writes
    no file. *)
Theorem main_blank_documents (fs : filesystem num) (documents : list str) :
  hw6.download_documents hw6.DOCUMENT_URLS = Returns documents →
  Forall (Forall (λ c, isspace c = true)) documents →
  hw6.main fs = (Raises (Exn IndexError), fs).
Proof.
  intros Hdocs Hblank. unfold hw6.main. rewrite Hdocs.
  rewrite semantic_chunk_blank; [done|done|].
  apply join_blank; [by repeat constructor|done].
Qed.

(** How [initialize_knowledge_base] ends. *)
Lemma initialize_cases (fs : filesystem num) :
  (is_Some (fs !! hw7.KNOWLEDGE_BASE_FILE) ∧
   hw7.initialize_knowledge_base fs = (run (hw7.load_knowledge_base fs), fs))
  ∨ (fs !! hw7.KNOWLEDGE_BASE_FILE = None ∧
     ∃ r, hw7.initialize_knowledge_base fs = (Raises r, fs))
  ∨ (fs !! hw7.KNOWLEDGE_BASE_FILE = None ∧
     ∃ documents chunks embeddings,
       hw6.download_documents hw6.DOCUMENT_URLS = Returns documents ∧
       hw6.semantic_chunk (join (newline ++ newline) documents) 800 200 = Ok chunks ∧
       hw6.compute_embeddings chunks = Ok embeddings ∧
       hw7.initialize_knowledge_base fs
       = (Returns (of_chunks chunks, of_embeddings embeddings),
          hw7.save_knowledge_base chunks embeddings fs)).
Proof.
  unfold hw7.initialize_knowledge_base, path_exists.
  destruct (fs !! hw7.KNOWLEDGE_BASE_FILE) as [f|] eqn:Hfile; [left; eauto|].
  right. unfold hw7.download_documents, hw7.DOCUMENT_URLS.
  destruct (hw6.download_documents hw6.DOCUMENT_URLS) as [documents|r] eqn:Hdocs;
    [|left; eauto].
  unfold hw7.semantic_chunk, hw7.compute_embeddings.
  destruct (hw6.semantic_chunk _ _ _) as [chunks|e] eqn:Hchunks; [|left; eauto].
  destruct (hw6.compute_embeddings chunks) as [embeddings|e] eqn:Hemb; [|left; eauto].
  right. split; [done|]. by exists documents, chunks, embeddings.
Qed.

(** X21: a second call of [initialize_knowledge_base] after one that has
    returned gives the same two lists and changes no file. *)
Theorem initialize_again (fs fs' : filesystem num) (lists : pyval num * pyval num) :
  hw7.initialize_knowledge_base fs = (Returns lists, fs') →
  hw7.initialize_knowledge_base fs' = (Returns lists, fs').
Proof.
  destruct (initialize_cases fs)
    as [[_ Hinit]|[(_ & r & Hinit)|(_ & ? & chunks & embs & _ & _ & _ & Hinit)]];
    rewrite Hinit.
  - intros [= Hload <-]. by rewrite Hinit, Hload.
  - done.
  - intros [= <- <-].
    destruct (initialize_cases (hw7.save_knowledge_base chunks embs fs))
      as [[_ ->]|[[Hnone _]|[Hnone _]]].
    + by rewrite load_saved.
    + unfold hw7.save_knowledge_base in Hnone. by rewrite lookup_insert_eq in Hnone.
    + unfold hw7.save_knowledge_base in Hnone. by rewrite lookup_insert_eq in Hnone.
Qed.

(** X22: [initialize_knowledge_base] never touches a file other than the
    knowledge base and never rebuilds a knowledge base that exists, readable
    or not; without one, a download or an embedding request that raises ends
    it with that exception before [save_knowledge_base] is reached: no file
    is written. *)
Theorem initialize_writes_once (fs : filesystem num) :
  (∀ name, name ≠ hw7.KNOWLEDGE_BASE_FILE →
     (hw7.initialize_knowledge_base fs).2 !! name = fs !! name) ∧
  (∀ f, fs !! hw7.KNOWLEDGE_BASE_FILE = Some f →
     hw7.initialize_knowledge_base fs = (run (hw7.load_knowledge_base fs), fs)) ∧
  (fs !! hw7.KNOWLEDGE_BASE_FILE = None →
     (∀ r, hw6.download_documents hw6.DOCUMENT_URLS = Raises r →
        hw7.initialize_knowledge_base fs = (Raises r, fs)) ∧
     (∀ documents chunks e,
        hw6.download_documents hw6.DOCUMENT_URLS = Returns documents →
        hw6.semantic_chunk (join (newline ++ newline) documents) 800 200 = Ok chunks →
        hw6.compute_embeddings chunks = Raise e →
        hw7.initialize_knowledge_base fs = (Raises (Exn e), fs))).
Proof.
  split_and!.
  - destruct (initialize_cases fs)
      as [[_ Hinit]|[(_ & r & Hinit)|(_ & ? & chunks & embs & _ & _ & _ & Hinit)]];
      rewrite Hinit; simpl; try done.
    intros name Hname. unfold hw7.save_knowledge_base. by rewrite lookup_insert_ne.
  - intros f Hf. unfold hw7.initialize_knowledge_base, path_exists. by rewrite Hf.
  - intros Hnone. unfold hw7.initialize_knowledge_base, path_exists. rewrite Hnone.
    unfold hw7.download_documents, hw7.DOCUMENT_URLS, hw7.semantic_chunk,
      hw7.compute_embeddings.
    change hw7.CHUNK_SIZE with 800. change hw7.OVERLAP with 200.
    split.
    + intros r Hr. by rewrite Hr.
    + intros documents chunks e Hdocs Hchunks He. by rewrite Hdocs, Hchunks, He.
Qed.


(** X24: on a disk without a knowledge base, [initialize_knowledge_base]
    leaves the very files that a returning [main] of [hw6_asingh101.py]
    leaves, and returns the lists that were stored. *)
Theorem initialize_builds_as_main (fs fs' : filesystem num) :
  fs !! hw7.KNOWLEDGE_BASE_FILE = None →
  hw6.main fs = (Returns (), fs') →
  ∃ chunks embeddings,
    hw7.initialize_knowledge_base fs
    = (Returns (of_chunks chunks, of_embeddings embeddings), fs') ∧
    hw7.load_knowledge_base fs' = Ok (of_chunks chunks, of_embeddings embeddings).
Proof.
  intros Hnone.
  destruct (main_cases fs) as [(r & _ & ->)|(docs & chunks & embs & Hd & Hc & He & _ & _ & ->)];
    [done|].
  intros [= <-]. exists chunks, embs.
  rewrite <- save_knowledge_base_same. split; [|apply load_saved].
  unfold hw7.initialize_knowledge_base, path_exists. rewrite Hnone.
  unfold hw7.download_documents, hw7.DOCUMENT_URLS. rewrite Hd.
  unfold hw7.semantic_chunk, hw7.compute_embeddings.
  change hw7.CHUNK_SIZE with hw6.CHUNK_SIZE. change hw7.OVERLAP with hw6.OVERLAP.
  by rewrite Hc, He.
Qed.

End BuildProperties.

(** X19 at a site whose two documents read ["Call me Ishmael."], the service
    [length_client] and an empty disk. *)
Lemma main_leaves_loadable_store_witness :
  let text := lit "Call me Ishmael." ++ newline ++ newline ++ lit "Call me Ishmael." in
  let fs' : filesystem Z := hw6.save_knowledge_base [text] [[34]] hw6.OUTPUT_FILE ∅ in
  ∃ documents chunks embeddings,
    hw6.download_documents (web:=ishmael_web) hw6.DOCUMENT_URLS = Returns documents ∧
    hw6.semantic_chunk (join (newline ++ newline) documents) 800 200 = Ok chunks ∧
    hw6.compute_embeddings (client:=length_client) chunks = Ok embeddings ∧
    chunks ≠ [] ∧ embeddings ≠ [] ∧
    fs' = hw6.save_knowledge_base chunks embeddings hw6.OUTPUT_FILE ∅ ∧
    hw7.load_knowledge_base fs' = Ok (of_chunks chunks, of_embeddings embeddings).
Proof.
  intros text fs'.
  apply (main_leaves_loadable_store (client:=length_client) (web:=ishmael_web) ∅ fs').
  vm_compute. reflexivity.
Defined.

(** X20 at a site of blank documents. *)
Lemma main_blank_documents_witness :
  hw6.main (client:=length_client) (web:=blank_web) ∅ = (Raises (Exn IndexError), ∅).
Proof.
  apply (main_blank_documents (client:=length_client) (web:=blank_web) ∅
           [lit "   "; lit "   "]); [reflexivity|].
  by repeat constructor.
Defined.

(** X21 at the site of the Ishmael documents and an empty disk. *)
Lemma initialize_again_witness :
  let text := lit "Call me Ishmael." ++ newline ++ newline ++ lit "Call me Ishmael." in
  let fs' : filesystem Z := hw7.save_knowledge_base [text] [[34]] ∅ in
  hw7.initialize_knowledge_base (client:=length_client) (web:=ishmael_web) fs'
  = (Returns (of_chunks [text], of_embeddings [[34]]), fs').
Proof.
  intros text fs'.
  apply (initialize_again (client:=length_client) (web:=ishmael_web) ∅ fs').
  vm_compute. reflexivity.
Defined.


(** X24 at the site of the Ishmael documents and an empty disk. *)
Lemma initialize_builds_as_main_witness :
  let text := lit "Call me Ishmael." ++ newline ++ newline ++ lit "Call me Ishmael." in
  let fs' : filesystem Z := hw6.save_knowledge_base [text] [[34]] hw6.OUTPUT_FILE ∅ in
  ∃ chunks embeddings,
    hw7.initialize_knowledge_base (client:=length_client) (web:=ishmael_web) ∅
    = (Returns (of_chunks chunks, of_embeddings embeddings), fs') ∧
    hw7.load_knowledge_base fs' = Ok (of_chunks chunks, of_embeddings embeddings).
Proof.
  intros text fs'.
  apply (initialize_builds_as_main (client:=length_client) (web:=ishmael_web) ∅ fs');
    [reflexivity|].
  vm_compute. reflexivity.
Defined.

(** ** Answering a query *)

Section AnswerProperties.
Context {num answer : Type} {number : Number num} {client : Client num}
  {responses : Responses answer}.


End AnswerProperties.


(** ** Chunker: short texts *)

(** X26: a text that is not blank and no longer than the stride is returned
    whole, as the one chunk. *)
Theorem short_text_is_one_chunk (text : str) (chunk_size overlap : Z) (c : char) :
  0 ≤ overlap → len text ≤ chunk_size - overlap →
  c ∈ text → isspace c = false →
  hw6.semantic_chunk text chunk_size overlap = Ok [text].
Proof.
  intros Hoverlap Hshort Hc Hspace.
  assert (1 ≤ len text) as Hlen.
  { destruct text; [by apply not_elem_of_nil in Hc|]. unfold len. simpl. lia. }
  rewrite semantic_chunk_offsets, chunk_offsets_pos_stride by lia.
  unfold retained_windows.
  assert (range_len 0 (len text) (chunk_size - overlap) = 1%nat) as ->.
  { apply Nat2Z.inj. rewrite range_len_ceil by lia.
    symmetry. apply (Z.div_unique_pos _ _ 1 (len text - 1)); lia. }
  assert (window text chunk_size 0 = text) as Hwindow.
  { rewrite window_take_drop by lia. simpl. apply take_ge. unfold len in *. lia. }
  change (seq 0 1) with [0%nat]. rewrite filter_cons_True, filter_nil.
  - rewrite !fmap_cons, !fmap_nil. change (Z.of_nat 0 * (chunk_size - overlap)) with 0.
    change (Ok [window text chunk_size 0] = Ok [text]). by rewrite Hwindow.
  - change (Z.of_nat 0 * (chunk_size - overlap)) with 0.
    unfold retained. rewrite Hwindow. apply Is_true_true, Z.ltb_lt.
    pose proof (strip_elem c text Hc Hspace) as Hin.
    destruct (strip text); [by apply not_elem_of_nil in Hin|].
    unfold len. simpl. lia.
Qed.

(** X26 at the text ["Call me Ishmael."] and the sizes of the scripts. *)
Lemma short_text_is_one_chunk_witness :
  hw6.semantic_chunk (lit "Call me Ishmael.") 800 200 = Ok [lit "Call me Ishmael."].
Proof.
  apply (short_text_is_one_chunk (lit "Call me Ishmael.") 800 200 67%N);
    [lia|change (len (lit "Call me Ishmael.")) with 16; lia| |reflexivity].
  apply (bool_decide_unpack _). vm_compute. exact I.
Defined.
